(** * Image architecture check and copy (package [images])

    A shallow embedding of [CopyImageOptions.Check], [CopyImageOptions.Copy],
    [getPolicyContext] and the [Index] model, together with the parts of Go's
    [strings] and [encoding/json] packages that these functions rely on.

    Go strings are byte sequences; they are embedded as [string] (a list of
    8-bit [ascii] characters).  A nil slice is [None], a non-nil slice is
    [Some l]. *)

From Stdlib Require Import String Ascii List ZArith Lia Bool.
Import ListNotations.
Local Open Scope list_scope.
Local Open Scope string_scope.

(** * Package [strings] *)

Module strings.

(** [strings.HasPrefix s prefix]. *)
Fixpoint HasPrefix (s prefix : string) {struct prefix} : bool :=
  match prefix, s with
  | EmptyString, _ => true
  | String _ _, EmptyString => false
  | String p prefix', String c s' => Ascii.eqb c p && HasPrefix s' prefix'
  end.

(** The loop of [strings.genSplit] for a separator that is not empty: the
    leftmost occurrence of [sep] ends the current piece [cur], the scan
    resumes behind the occurrence ([skip] counts the bytes of the occurrence
    that are still to be dropped), and what is left at the end is the last
    piece. *)
Fixpoint genSplit (sep : string) (skip : nat) (cur : string) (s : string)
  : list string :=
  match s with
  | EmptyString => [cur]
  | String c s' =>
      match skip with
      | S k => genSplit sep k cur s'
      | O =>
          if HasPrefix s sep
          then cur :: genSplit sep (String.length sep - 1) EmptyString s'
          else genSplit sep 0 (cur ++ String c EmptyString) s'
      end
  end.

(** [strings.Split s sep], for [sep <> ""] (the package under study only
    splits at ["//"]). *)
Definition Split (s sep : string) : list string := genSplit sep 0 EmptyString s.

(** [strings.Contains s substr]. *)
Fixpoint Contains (s substr : string) : bool :=
  HasPrefix s substr ||
  match s with
  | EmptyString => false
  | String _ s' => Contains s' substr
  end.

End strings.

(** * Package [encoding/json] *)

Module json.

(** A JSON text after scanning.  Numbers keep their literal, as the decoder
    converts it only once the target type is known; object members keep their
    order and their duplicates, as the decoder visits them one by one. *)
#[local] Unset Elimination Schemes.
Inductive value : Type :=
| Null
| Bool (b : bool)
| Number (literal : string)
| String_ (s : string)
| Array (elems : list value)
| Object (members : list (string * value)).
#[local] Set Elimination Schemes.

(** [*json.UnmarshalTypeError]: the JSON value [Value] does not fit the Go
    type [Type_]. *)
Record UnmarshalTypeError := { Value : string; Type_ : string }.

(** The decoder's [savedError]: the first type error met is kept and
    decoding goes on. *)
Definition saveError (saved new : option UnmarshalTypeError)
  : option UnmarshalTypeError :=
  match saved with
  | Some _ => saved
  | None => new
  end.

Definition byte (n : nat) (c : ascii) : bool := Nat.eqb (nat_of_ascii c) n.

Definition upper (c : ascii) : ascii :=
  let n := nat_of_ascii c in
  if Nat.leb 97 n && Nat.leb n 122 then ascii_of_nat (n - 32) else c.

(** [foldName]: the case-folded form under which a struct field is looked up
    when no field has exactly the member's name.  ASCII letters go to upper
    case; of the runes outside ASCII, the two that fold into ASCII are the
    long s U+017F (bytes C5 BF, folds to S) and the Kelvin sign U+212A (bytes
    E2 84 AA, folds to K).  Every other rune outside ASCII folds to a rune
    outside ASCII and is left as it is here: it cannot make a member name
    equal to the folded name of a field whose name is ASCII, and all field
    names below are. *)
Fixpoint foldName (s : string) : string :=
  match s with
  | EmptyString => EmptyString
  | String c rest =>
      let plain := String (upper c) (foldName rest) in
      if byte 197 c then
        match rest with
        | String d rest' =>
            if byte 191 d then String "S" (foldName rest') else plain
        | EmptyString => plain
        end
      else if byte 226 c then
        match rest with
        | String d (String e rest'') =>
            if byte 132 d && byte 170 e
            then String "K" (foldName rest'') else plain
        | _ => plain
        end
      else plain
  end.

(** The field of a struct that an object member named [key] is stored into:
    [fields.byExactName[key]], else [fields.byFoldedName[foldName(key)]]. *)
Definition fieldByName {F : Type} (fields : list (string * F)) (key : string)
  : option F :=
  match find (fun nf => String.eqb (fst nf) key) fields with
  | Some nf => Some (snd nf)
  | None =>
      match find (fun nf => String.eqb (foldName (fst nf)) (foldName key))
                 fields with
      | Some nf => Some (snd nf)
      | None => None
      end
  end.

Definition digit (c : ascii) : option Z :=
  let n := nat_of_ascii c in
  if Nat.leb 48 n && Nat.leb n 57 then Some (Z.of_nat (n - 48)) else None.

Fixpoint digits (acc : Z) (s : string) : option Z :=
  match s with
  | EmptyString => Some acc
  | String c s' =>
      match digit c with
      | Some d => digits (10 * acc + d) s'
      | None => None
      end
  end.

(** [strconv.ParseInt(s, 10, 64)]: an optional sign, then decimal digits (at
    least one), within the range of int64. *)
Definition ParseInt (s : string) : option Z :=
  let magnitude (t : string) :=
    match t with
    | EmptyString => None
    | _ => digits 0 t
    end in
  let signed :=
    match s with
    | String "-" t => option_map Z.opp (magnitude t)
    | String "+" t => magnitude t
    | _ => magnitude s
    end in
  match signed with
  | Some n =>
      if (Z.leb (- 2 ^ 63) n && Z.ltb n (2 ^ 63))%Z then Some n else None
  | None => None
  end.

(** The word a type error uses for the JSON value it met. *)
Definition describe (v : value) : string :=
  match v with
  | Null => "null"
  | Bool _ => "bool"
  | Number lit => "number " ++ lit
  | String_ _ => "string"
  | Array _ => "array"
  | Object _ => "object"
  end.

Definition mismatch (v : value) (ty : string) : option UnmarshalTypeError :=
  Some {| Value := describe v; Type_ := ty |}.

(** Decoding into a Go [string] that holds [cur]: a JSON string is stored,
    null leaves the target as it is, everything else is a type error. *)
Definition into_string (v : value) (cur : string)
  : string * option UnmarshalTypeError :=
  match v with
  | String_ s => (s, None)
  | Null => (cur, None)
  | _ => (cur, mismatch v "string")
  end.

(** Decoding into a Go [int] (64 bits wide) that holds [cur]. *)
Definition into_int (v : value) (cur : Z) : Z * option UnmarshalTypeError :=
  match v with
  | Number lit =>
      match ParseInt lit with
      | Some n => (n, None)
      | None => (cur, mismatch v "int")
      end
  | Null => (cur, None)
  | _ => (cur, mismatch v "int")
  end.

(** The loop of [decodeState.object] over the members of a JSON object whose
    target is a struct: each member that names a field is decoded into that
    field of the struct as it stands ([store]), the others are skipped. *)
Fixpoint into_fields {S F : Type} (fields : list (string * F))
  (store : F -> value -> S -> S * option UnmarshalTypeError)
  (members : list (string * value)) (cur : S) (saved : option UnmarshalTypeError)
  : S * option UnmarshalTypeError :=
  match members with
  | [] => (cur, saved)
  | (key, v) :: rest =>
      match fieldByName fields key with
      | Some f =>
          let (cur', e) := store f v cur in
          into_fields fields store rest cur' (saveError saved e)
      | None => into_fields fields store rest cur saved
      end
  end.

(** Decoding into a struct of Go type [ty] that holds [cur]. *)
Definition into_struct {S F : Type} (ty : string) (fields : list (string * F))
  (store : F -> value -> S -> S * option UnmarshalTypeError)
  (v : value) (cur : S) : S * option UnmarshalTypeError :=
  match v with
  | Object members => into_fields fields store members cur None
  | Null => (cur, None)
  | _ => (cur, mismatch v ty)
  end.

(** The loop of [decodeState.array] into a slice: element [i] of the JSON
    array is decoded into element [i] of the slice where the slice has one,
    and into a new zero element otherwise. *)
Fixpoint into_elems {S : Type} (zero : S)
  (elem : value -> S -> S * option UnmarshalTypeError)
  (elems : list value) (cur : list S) (saved : option UnmarshalTypeError)
  : list S * option UnmarshalTypeError :=
  match elems with
  | [] => ([], saved)
  | v :: rest =>
      let (x, e) := elem v (hd zero cur) in
      let (xs, saved') :=
        into_elems zero elem rest (tl cur) (saveError saved e) in
      (x :: xs, saved')
  end.

(** Decoding into a slice of Go type [ty] that holds [cur]: null makes the
    slice nil; an array gives a slice that is not nil, of the array's length,
    also when the array is empty. *)
Definition into_slice {S : Type} (ty : string) (zero : S)
  (elem : value -> S -> S * option UnmarshalTypeError)
  (v : value) (cur : option (list S))
  : option (list S) * option UnmarshalTypeError :=
  match v with
  | Array elems =>
      let (xs, e) :=
        into_elems zero elem elems
          (match cur with Some l => l | None => [] end) None in
      (Some xs, e)
  | Null => (None, None)
  | _ => (cur, mismatch v ty)
  end.

End json.

(** * The manifest as [Check] reads it *)

(** [PlatformDetails], with its field tags. *)
Record PlatformDetails := {
  Architecture : string;   (* json:"architecture" *)
  OS : string;             (* json:"os" *)
  Variant : string         (* json:"variant,omitempty" *)
}.

(** [ManifestEntry], with its field tags. *)
Record ManifestEntry := {
  Digest : string;             (* json:"digest" *)
  entry_MediaType : string;    (* MediaType, json:"mediaType" *)
  Platform : PlatformDetails;  (* json:"platform" *)
  Size : Z                     (* json:"size" *)
}.

(** [ImageManifest], with its field tags.  [Manifests] is a slice: [None] is
    the nil slice. *)
Record ImageManifest := {
  Manifests : option (list ManifestEntry);  (* json:"manifests" *)
  MediaType : string;                       (* json:"mediaType" *)
  SchemaVersion : Z                         (* json:"schemaVersion" *)
}.

(** The zero values that [var manifest ImageManifest] and a new slice element
    start from. *)
Definition zero_PlatformDetails : PlatformDetails :=
  {| Architecture := ""; OS := ""; Variant := "" |}.

Definition zero_ManifestEntry : ManifestEntry :=
  {| Digest := ""; entry_MediaType := ""; Platform := zero_PlatformDetails;
     Size := 0 |}.

Definition zero_ImageManifest : ImageManifest :=
  {| Manifests := None; MediaType := ""; SchemaVersion := 0 |}.

Module decode.
Import json.

Inductive PlatformDetails_field := fArchitecture | fOS | fVariant.
Inductive ManifestEntry_field := fDigest | fEntryMediaType | fPlatform | fSize.
Inductive ImageManifest_field := fManifests | fMediaType | fSchemaVersion.

(** The names under which the decoder knows the fields: their [json] tags. *)
Definition PlatformDetails_fields : list (string * PlatformDetails_field) :=
  [("architecture", fArchitecture); ("os", fOS); ("variant", fVariant)].

Definition ManifestEntry_fields : list (string * ManifestEntry_field) :=
  [("digest", fDigest); ("mediaType", fEntryMediaType);
   ("platform", fPlatform); ("size", fSize)].

Definition ImageManifest_fields : list (string * ImageManifest_field) :=
  [("manifests", fManifests); ("mediaType", fMediaType);
   ("schemaVersion", fSchemaVersion)].

Definition store_PlatformDetails (f : PlatformDetails_field) (v : value)
  (p : PlatformDetails) : PlatformDetails * option UnmarshalTypeError :=
  match f with
  | fArchitecture =>
      let (s, e) := into_string v (Architecture p) in
      ({| Architecture := s; OS := OS p; Variant := Variant p |}, e)
  | fOS =>
      let (s, e) := into_string v (OS p) in
      ({| Architecture := Architecture p; OS := s; Variant := Variant p |}, e)
  | fVariant =>
      let (s, e) := into_string v (Variant p) in
      ({| Architecture := Architecture p; OS := OS p; Variant := s |}, e)
  end.

Definition into_PlatformDetails
  : value -> PlatformDetails -> PlatformDetails * option UnmarshalTypeError :=
  into_struct "images.PlatformDetails" PlatformDetails_fields
    store_PlatformDetails.

Definition store_ManifestEntry (f : ManifestEntry_field) (v : value)
  (m : ManifestEntry) : ManifestEntry * option UnmarshalTypeError :=
  match f with
  | fDigest =>
      let (s, e) := into_string v (Digest m) in
      ({| Digest := s; entry_MediaType := entry_MediaType m;
          Platform := Platform m; Size := Size m |}, e)
  | fEntryMediaType =>
      let (s, e) := into_string v (entry_MediaType m) in
      ({| Digest := Digest m; entry_MediaType := s;
          Platform := Platform m; Size := Size m |}, e)
  | fPlatform =>
      let (p, e) := into_PlatformDetails v (Platform m) in
      ({| Digest := Digest m; entry_MediaType := entry_MediaType m;
          Platform := p; Size := Size m |}, e)
  | fSize =>
      let (n, e) := into_int v (Size m) in
      ({| Digest := Digest m; entry_MediaType := entry_MediaType m;
          Platform := Platform m; Size := n |}, e)
  end.

Definition into_ManifestEntry
  : value -> ManifestEntry -> ManifestEntry * option UnmarshalTypeError :=
  into_struct "images.ManifestEntry" ManifestEntry_fields store_ManifestEntry.

Definition store_ImageManifest (f : ImageManifest_field) (v : value)
  (m : ImageManifest) : ImageManifest * option UnmarshalTypeError :=
  match f with
  | fManifests =>
      let (l, e) :=
        into_slice "[]images.ManifestEntry" zero_ManifestEntry
          into_ManifestEntry v (Manifests m) in
      ({| Manifests := l; MediaType := MediaType m;
          SchemaVersion := SchemaVersion m |}, e)
  | fMediaType =>
      let (s, e) := into_string v (MediaType m) in
      ({| Manifests := Manifests m; MediaType := s;
          SchemaVersion := SchemaVersion m |}, e)
  | fSchemaVersion =>
      let (n, e) := into_int v (SchemaVersion m) in
      ({| Manifests := Manifests m; MediaType := MediaType m;
          SchemaVersion := n |}, e)
  end.

Definition into_ImageManifest
  : value -> ImageManifest -> ImageManifest * option UnmarshalTypeError :=
  into_struct "images.ImageManifest" ImageManifest_fields store_ImageManifest.

End decode.

(** * The index model *)

(** [annotations], [Manifest] and [Index]; none of the fields of the last
    two carries a tag, so that [encoding/json] names them as Go does. *)
Record annotations := {
  RefName : string   (* json:"org.opencontainers.image.ref.name" *)
}.

Record Manifest := { Annotations : annotations }.

Record Index := { Index_Manifests : option (list Manifest) (* Manifests *) }.

(** [NewIndex]: the slice of manifests is empty and not nil. *)
Definition NewIndex : Index := {| Index_Manifests := Some [] |}.

(** [idx.Manifests = append(idx.Manifests, m)], the way a caller populates an
    index. *)
Definition append_Manifest (idx : Index) (m : Manifest) : Index :=
  {| Index_Manifests :=
       Some (match Index_Manifests idx with
             | Some l => (l ++ [m])%list
             | None => [m]
             end) |}.

Definition populate (idx : Index) (ms : list Manifest) : Index :=
  fold_left append_Manifest ms idx.

Module encode.
Import json.

(** The documents that [json.Marshal] writes for the three types: a struct
    becomes an object with one member per field, named by the field's tag or
    else by the field's Go name; a nil slice becomes null and any other slice
    an array.  (A Go string is written as the JSON string that denotes it;
    bytes that are not UTF-8 are replaced on the way, which changes no
    structure.) *)
Definition of_annotations (a : annotations) : value :=
  Object [("org.opencontainers.image.ref.name", String_ (RefName a))].

Definition of_Manifest (m : Manifest) : value :=
  Object [("Annotations", of_annotations (Annotations m))].

Definition of_Index (idx : Index) : value :=
  Object [("Manifests",
           match Index_Manifests idx with
           | Some l => Array (map of_Manifest l)
           | None => Null
           end)].

End encode.

(** * The collaborators *)

(** What a Go call hands back as [(value, err)]. *)
Inductive result (E A : Type) : Type :=
| Ok (a : A)
| Err (e : E).
Arguments Ok {E A} a.
Arguments Err {E A} e.

(** Package [signature]: the requirements of a policy, the policy, and how
    the library decides whether an image may be used under a policy. *)
Module signature.

Inductive PolicyRequirement : Type :=
| prInsecureAcceptAnything            (* NewPRInsecureAcceptAnything() *)
| prReject
| prSignedBy (keys : string) (signedIdentity : string)
| prSignedBaseLayer (baseLayerIdentity : string).

(** [signature.Policy]: [Default], and per transport name and scope the
    requirements that replace the default ones there. *)
Record Policy := {
  Default : list PolicyRequirement;
  Transports : list (string * list (string * list PolicyRequirement))
}.

Definition lookup {A} (k : string) (m : list (string * A)) : option A :=
  option_map snd (find (fun kv => String.eqb (fst kv) k) m).

(** [PolicyContext.requirementsForImageRef]: the requirements of the image's
    own scope, else of the nearest enclosing scope, else of the transport,
    else the default ones. *)
Definition requirementsForImageRef (p : Policy) (transport identity : string)
  (namespaces : list string) : list PolicyRequirement :=
  match lookup transport (Transports p) with
  | Some scopes =>
      match lookup identity scopes with
      | Some reqs => reqs
      | None =>
          match
            fold_left (fun found name =>
                         match found with
                         | Some _ => found
                         | None => lookup name scopes
                         end) namespaces None
          with
          | Some reqs => reqs
          | None =>
              match lookup "" scopes with
              | Some reqs => reqs
              | None => Default p
              end
          end
      end
  | None => Default p
  end.

(** [PolicyRequirement.isRunningImageAllowed]: accept-anything allows the
    image without looking at it, reject refuses it, the others ask the
    signature verification [verify]. *)
Definition isRunningImageAllowed (verify : PolicyRequirement -> bool)
  (req : PolicyRequirement) : bool :=
  match req with
  | prInsecureAcceptAnything => true
  | prReject => false
  | _ => verify req
  end.

(** [PolicyContext.IsRunningImageAllowed], which [copy.Image] asks before it
    copies: the list of requirements must not be empty and each of them must
    allow the image. *)
Definition IsRunningImageAllowed (verify : PolicyRequirement -> bool)
  (p : Policy) (transport identity : string) (namespaces : list string)
  : bool :=
  match requirementsForImageRef p transport identity namespaces with
  | [] => false
  | reqs => forallb (isRunningImageAllowed verify) reqs
  end.

End signature.
Import signature.

(** [types.ImageInspectInfo], as far as [Check] reads it. *)
Record ImageInspectInfo := {
  inspect_Architecture : string;   (* Architecture *)
  inspect_Os : string              (* Os *)
}.

(** The [io.Writer] this package hands out. *)
Inductive Writer := os_Stdout.

(** The values that cross the boundary to [github.com/containers/image/v5]. *)
Record Handles := {
  error : Type;            (* the errors the library reports *)
  SystemContext : Type;    (* *types.SystemContext *)
  ImageReference : Type;   (* types.ImageReference *)
  ImageSource : Type;      (* types.ImageSource *)
  ImageCloser : Type;      (* types.ImageCloser *)
  PolicyContext : Type     (* *signature.PolicyContext *)
}.

(** The registry and its transports, and the scanner of [encoding/json]: all
    of them outside this package.  Each function gives what one call
    returns. *)
Record World (H : Handles) := {
  (* alltransports.ParseImageName(imgName) *)
  ParseImageName : string -> result (error H) (ImageReference H);
  (* ref.NewImageSource(ctx, sys) *)
  NewImageSource : ImageReference H -> SystemContext H ->
                   result (error H) (ImageSource H);
  (* src.GetManifest(ctx, nil): the manifest and its MIME type *)
  GetManifest : ImageSource H -> result (error H) (string * string);
  (* the document a JSON text denotes; None when the text is not JSON *)
  scan : string -> option json.value;
  (* docker.ParseReference(refString) *)
  ParseReference : string -> result (error H) (ImageReference H);
  (* ref.NewImage(ctx, sys) *)
  NewImage : ImageReference H -> SystemContext H ->
             result (error H) (ImageCloser H);
  (* img.Inspect(ctx) *)
  Inspect : ImageCloser H -> result (error H) ImageInspectInfo;
  (* signature.NewPolicyContext(policy) *)
  NewPolicyContext : Policy -> result (error H) (PolicyContext H);
  (* copy.Image(ctx, policyContext, destRef, srcRef, options): the copied
     manifest *)
  copy_Image : PolicyContext H -> ImageReference H -> ImageReference H ->
               Writer -> SystemContext H -> SystemContext H ->
               result (error H) string
}.
Arguments ParseImageName {H} _ _.
Arguments NewImageSource {H} _ _ _.
Arguments GetManifest {H} _ _.
Arguments scan {H} _ _.
Arguments ParseReference {H} _ _.
Arguments NewImage {H} _ _ _.
Arguments Inspect {H} _ _.
Arguments NewPolicyContext {H} _ _.
Arguments copy_Image {H} _ _ _ _ _ _ _.

(** * Go control flow: calls, early return, panic, defer *)

(** How a function call ends. *)
Inductive outcome (R : Type) : Type :=
| Returned (r : R)
| Panicked (reason : string).
Arguments Returned {R} r.
Arguments Panicked {R} reason.

(** Where a statement leaves the function it is in: at the next statement,
    with a value, or at its end. *)
Inductive flow (R A : Type) : Type :=
| Next (a : A)
| Done (o : outcome R).
Arguments Next {R A} a.
Arguments Done {R A} o.

Section Go.
Context {Ev R : Type}.

(** A piece of a function body: the calls it makes on the collaborators, in
    order, and where it leaves the function. *)
Definition Go (A : Type) : Type := (list Ev * flow R A)%type.

Definition ret {A} (a : A) : Go A := ([], Next a).

Definition bind {A B} (m : Go A) (k : A -> Go B) : Go B :=
  match m with
  | (t, Next a) => let (t', f) := k a in ((t ++ t')%list, f)
  | (t, Done o) => (t, Done o)
  end.

(** A call on a collaborator: [ev] is logged, [r] is what the call gives. *)
Definition call {A} (ev : Ev) (r : A) : Go A := ([ev], Next r).

(** [return r]. *)
Definition return_ {A} (r : R) : Go A := ([], Done (Returned r)).

(** A run-time panic. *)
Definition panic {A} (reason : string) : Go A := ([], Done (Panicked reason)).

(** [l[i]], which panics when [i] is out of range. *)
Definition index {A} (l : list A) (i : nat) : Go A :=
  match nth_error l i with
  | Some x => ret x
  | None => panic "index out of range"
  end.

(** [defer d], followed by the statements [rest]: [d] runs when the function
    ends, whether [rest] returns or panics, and what [d] returns is dropped. *)
Definition defer {A B} (d : Go A) (rest : Go B) : Go B :=
  let (t, f) := rest in ((t ++ fst d)%list, f).

(** A function whose body is [body]. *)
Definition func (body : Go R) : list Ev * outcome R :=
  match body with
  | (t, Next r) => (t, Returned r)
  | (t, Done o) => (t, o)
  end.

End Go.
Arguments Go : clear implicits.

Declare Scope go_scope.
Delimit Scope go_scope with go.
Notation "x <- m ;; k" := (bind m (fun x => k))
  (at level 61, m at next level, right associativity) : go_scope.
Notation "m ;; k" := (bind m (fun _ => k))
  (at level 61, right associativity) : go_scope.

(** * The package *)

Section Images.
Context {H : Handles}.

(** Modelled from the spec: the endpoint types [srcImageOptions],
    [destImageOptions] and [dockerImageOptions] and their [systemContext]
    methods are declared in another file of the package.  An endpoint holds
    its image locator [imageName] and its registry access context, the value
    of [systemContext()]; the destination's [dockerImage.arch] is its
    configured target architecture. *)
Record dockerImageOptions := { arch : string }.

Record srcImageOptions := {
  src_imageName : string;                 (* imageName *)
  src_systemContext : SystemContext H     (* systemContext() *)
}.

Record destImageOptions := {
  dockerImage : dockerImageOptions;
  dest_imageName : string;                (* imageName *)
  dest_systemContext : SystemContext H    (* systemContext() *)
}.

(** [CopyImageOptions]; both pointers are set. *)
Record CopyImageOptions := {
  srcImage : srcImageOptions;
  destImage : destImageOptions
}.

(** The values of Go's [error] that [Check] and [Copy] can return: what a
    collaborator reported, or what [json.Unmarshal] reported. *)
Inductive Error : Type :=
| LibraryError (e : error H)
| SyntaxError                                  (* *json.SyntaxError *)
| TypeError (e : json.UnmarshalTypeError).

(** The calls made on the collaborators, with their arguments. *)
Inductive Call : Type :=
| ParseImageName_ (imgName : string)
| NewImageSource_ (ref : ImageReference H) (sys : SystemContext H)
| GetManifest_ (src : ImageSource H)
| ImageSource_Close_ (src : ImageSource H)
| ParseReference_ (refString : string)
| NewImage_ (ref : ImageReference H) (sys : SystemContext H)
| Inspect_ (img : ImageCloser H)
| Image_Close_ (img : ImageCloser H)
| NewPolicyContext_ (policy : Policy)
| Destroy_ (pc : PolicyContext H)
| copy_Image_ (pc : PolicyContext H) (destRef srcRef : ImageReference H)
    (ReportWriter : Writer) (SourceCtx DestinationCtx : SystemContext H).

Variable W : World H.

(** [json.Unmarshal(data, &target)]: a text that is not JSON is refused
    before anything is stored; otherwise the document is decoded into the
    target and the first type error, if any, is returned. *)
Definition Unmarshal (data : string) (target : ImageManifest)
  : ImageManifest * option Error :=
  match scan W data with
  | None => (target, Some SyntaxError)
  | Some doc =>
      let (m, e) := decode.into_ImageManifest doc target in
      (m, option_map TypeError e)
  end.

Local Open Scope go_scope.

(** [if err != nil { return onError(err) }] behind a call. *)
Definition orReturn {R A} (m : Go Call R (result (error H) A))
  (onError : Error -> R) : Go Call R A :=
  r <- m ;;
  match r with
  | Ok a => ret a
  | Err e => return_ (onError (LibraryError e))
  end.

(** [func (c *CopyImageOptions) Check() (bool, error)].  The handle [img] is
    closed by a deferred call, which runs behind whatever ends the function
    from there on: the returns of lines 99 and 103, and the one of line 107
    that the branch falls through to. *)
Definition Check (c : CopyImageOptions)
  : list Call * outcome (bool * option Error) :=
  let failed (err : Error) := (false, Some err) in
  func (
    let srcContext := src_systemContext (srcImage c) in
    srcRef <- orReturn (call (ParseImageName_ (src_imageName (srcImage c)))
                (ParseImageName W (src_imageName (srcImage c)))) failed ;;
    src <- orReturn (call (NewImageSource_ srcRef srcContext)
             (NewImageSource W srcRef srcContext)) failed ;;
    got <- orReturn (call (GetManifest_ src) (GetManifest W src)) failed ;;
    let manifestData := fst got in
    let (manifest, err) := Unmarshal manifestData zero_ImageManifest in
    match err with
    | Some err => return_ (false, Some err)
    | None =>
        match Manifests manifest with
        | None =>
            piece <- index (strings.Split (src_imageName (srcImage c)) "//") 1 ;;
            ref <- orReturn (call (ParseReference_ ("//" ++ piece))
                     (ParseReference W ("//" ++ piece))) failed ;;
            img <- orReturn (call (NewImage_ ref srcContext)
                     (NewImage W ref srcContext)) failed ;;
            defer (call (Image_Close_ img) tt) (
              inspectedImage <- orReturn (call (Inspect_ img) (Inspect W img))
                                  failed ;;
              (if negb (String.eqb (inspect_Architecture inspectedImage)
                          (arch (dockerImage (destImage c))))
               then return_ (false, None)
               else ret tt) ;;
              return_ (true, None))
        | Some _ => return_ (true, None)
        end
    end).

(** [func getPolicyContext()], which returns a policy context and an
    error. *)
Definition getPolicyContext {R}
  : Go Call R (result (error H) (PolicyContext H)) :=
  let policy :=
    {| Default := [prInsecureAcceptAnything]; Transports := [] |} in
  call (NewPolicyContext_ policy) (NewPolicyContext W policy).

(** [func (c *CopyImageOptions) Copy() error] *)
Definition Copy (c : CopyImageOptions) : list Call * outcome (option Error) :=
  func (
    policyContext <- orReturn getPolicyContext Some ;;
    defer (call (Destroy_ policyContext) tt) (
      srcRef <- orReturn (call (ParseImageName_ (src_imageName (srcImage c)))
                  (ParseImageName W (src_imageName (srcImage c)))) Some ;;
      destRef <- orReturn (call (ParseImageName_ (dest_imageName (destImage c)))
                   (ParseImageName W (dest_imageName (destImage c)))) Some ;;
      let srcContext := src_systemContext (srcImage c) in
      let destContext := dest_systemContext (destImage c) in
      orReturn (call (copy_Image_ policyContext destRef srcRef os_Stdout
                        srcContext destContext)
                  (copy_Image W policyContext destRef srcRef os_Stdout
                     srcContext destContext)) Some ;;
      return_ None)).

End Images.
Arguments Call : clear implicits.
Arguments Error : clear implicits.
Arguments CopyImageOptions : clear implicits.
Arguments srcImageOptions : clear implicits.
Arguments destImageOptions : clear implicits.


(** * Notions the statements use *)

Module document.
Import json decode.

(** Whether the decoder stores a top-level member of this name into
    [ImageManifest.Manifests], respectively into [ImageManifest.MediaType]. *)
Definition names_Manifests (key : string) : bool :=
  match fieldByName ImageManifest_fields key with
  | Some fManifests => true
  | _ => false
  end.

Definition names_MediaType (key : string) : bool :=
  match fieldByName ImageManifest_fields key with
  | Some fMediaType => true
  | _ => false
  end.

(** The member that counts among those whose name satisfies [named]: the
    last one, as the decoder stores them in turn. *)
Fixpoint last_member (named : string -> bool) (members : list (string * value))
  : option value :=
  match members with
  | [] => None
  | (key, v) :: rest =>
      match last_member named rest with
      | Some v' => Some v'
      | None => if named key then Some v else None
      end
  end.

(** The top-level [manifests] field of a document, when it has one. *)
Definition manifests_field (doc : value) : option value :=
  match doc with
  | Object members => last_member names_Manifests members
  | _ => None
  end.

(** Two members that are the same, or that both declare a media type as a
    string. *)
Definition same_but_mediaType (a b : string * value) : Prop :=
  fst a = fst b /\
  (snd a = snd b \/
   (names_MediaType (fst a) = true /\
    exists s s', snd a = String_ s /\ snd b = String_ s')).

(** Two documents that differ in nothing but the declared [mediaType]
    string. *)
Definition differ_only_in_mediaType (doc doc' : value) : Prop :=
  doc = doc' \/
  exists members members',
    doc = Object members /\ doc' = Object members' /\
    Forall2 same_but_mediaType members members'.

(** The shape of what [store_ImageManifest] leaves in [Manifests]. *)
Definition decided_by (v : value) (l : option (list ManifestEntry)) : Prop :=
  (v = Null /\ l = None) \/
  (exists elems xs, v = Array elems /\ l = Some xs /\
                    List.length xs = List.length elems).

(** Two manifests that hold the same but for [MediaType]. *)
Definition agree (a b : ImageManifest) : Prop :=
  Manifests a = Manifests b /\ SchemaVersion a = SchemaVersion b.

End document.

(** The shape [Check] takes a decoded manifest for: the test
    [manifest.Manifests == nil] of line 82. *)
Inductive Shape := FlatShape | IndexShape.

Definition shape (m : ImageManifest) : Shape :=
  match Manifests m with
  | None => FlatShape
  | Some _ => IndexShape
  end.

(** The world [W] with another answer to [GetManifest]. *)
Definition with_GetManifest {H : Handles} (W : World H)
  (answer : ImageSource H -> result (error H) (string * string)) : World H :=
  {| ParseImageName := ParseImageName W;
     NewImageSource := NewImageSource W;
     GetManifest := answer;
     scan := scan W;
     ParseReference := ParseReference W;
     NewImage := NewImage W;
     Inspect := Inspect W;
     NewPolicyContext := NewPolicyContext W;
     copy_Image := copy_Image W |}.

(** The policy [getPolicyContext] builds. *)
Definition acceptAnything : Policy :=
  {| Default := [prInsecureAcceptAnything]; Transports := [] |}.

(** The calls by which [Check] fetches the manifest of the source: the
    locator is parsed to [srcRef], the image source [src] is opened, and its
    manifest is asked for. *)
Definition fetched {H : Handles} (source : srcImageOptions H)
  (srcRef : ImageReference H) (src : ImageSource H) : list (Call H) :=
  [ParseImageName_ (src_imageName source);
   NewImageSource_ srcRef (src_systemContext source);
   GetManifest_ src].

(** The calls of the flat-shape branch that succeed in opening the image
    [img]: the reference is derived, the image is opened, inspected and
    closed. *)
Definition inspected {H : Handles} (source : srcImageOptions H)
  (piece : string) (ref : ImageReference H) (img : ImageCloser H)
  : list (Call H) :=
  [ParseReference_ ("//" ++ piece);
   NewImage_ ref (src_systemContext source);
   Inspect_ img;
   Image_Close_ img].

(** * A scanner for JSON texts

    The worlds used for concrete runs scan their manifests with this
    pushdown automaton, which reads a text byte by byte as the scanner of
    [encoding/json] does: the grammar of RFC 8259, at most 10000 levels of
    nesting, and strings unquoted as Go unquotes them. *)

Module scanner.
Import json.

Definition code (c : ascii) : N := N_of_ascii c.
Definition chr (n : N) : ascii := ascii_of_N n.
Definition between (lo hi : N) (c : ascii) : bool :=
  (N.leb lo (code c) && N.leb (code c) hi)%bool.

Definition isSpace (c : ascii) : bool :=
  (N.eqb (code c) 32 || N.eqb (code c) 9 || N.eqb (code c) 13
   || N.eqb (code c) 10)%bool.

Definition isDigit : ascii -> bool := between 48 57.

Definition hex (c : ascii) : option N :=
  if between 48 57 c then Some (code c - 48)%N
  else if between 97 102 c then Some (code c - 87)%N
  else if between 65 70 c then Some (code c - 55)%N
  else None.

(** [utf8.EncodeRune] for a rune that is valid. *)
Definition encodeRune (r : N) : string :=
  let cont (n : N) := chr (128 + N.land n 63) in
  if N.ltb r 128 then String (chr r) ""
  else if N.ltb r 2048 then
    String (chr (192 + N.shiftr r 6)) (String (cont r) "")
  else if N.ltb r 65536 then
    String (chr (224 + N.shiftr r 12))
      (String (cont (N.shiftr r 6)) (String (cont r) ""))
  else
    String (chr (240 + N.shiftr r 18))
      (String (cont (N.shiftr r 12))
         (String (cont (N.shiftr r 6)) (String (cont r) ""))).

(** U+FFFD, which stands in for what cannot be decoded. *)
Definition replacement : string := encodeRune 65533.

(** What a string literal contributes between its quotes: bytes, and the
    code units written as [\uXXXX]. *)
Inductive unit_ := raw (c : ascii) | escaped (u : N).

Definition isSurrogate (u : N) : bool := (N.leb 55296 u && N.ltb u 57344)%bool.
Definition isHigh (u : N) : bool := (N.leb 55296 u && N.ltb u 56320)%bool.
Definition isLow (u : N) : bool := (N.leb 56320 u && N.ltb u 57344)%bool.

(** The escapes resolved: a high surrogate pairs with a low one that follows
    it at once, and a surrogate without partner is replaced. *)
Fixpoint unescape (us : list unit_) : string :=
  match us with
  | [] => ""
  | raw c :: rest => String c (unescape rest)
  | escaped u :: rest =>
      if isSurrogate u then
        match rest with
        | escaped u' :: rest' =>
            if (isHigh u && isLow u')%bool
            then encodeRune (65536 + N.shiftl (u - 55296) 10 + (u' - 56320))
                   ++ unescape rest'
            else replacement ++ unescape rest
        | _ => replacement ++ unescape rest
        end
      else encodeRune u ++ unescape rest
  end.

(** The coercion to well-formed UTF-8 of Go's [unquote]: a byte at which no
    rune can be decoded is replaced, and decoding resumes behind it. *)
Fixpoint coerce (s : string) : string :=
  match s with
  | EmptyString => EmptyString
  | String c rest =>
      let invalid (_ : unit) := replacement ++ coerce rest in
      if N.ltb (code c) 128 then String c (coerce rest)
      else if between 194 223 c then
        match rest with
        | String d rest1 =>
            if between 128 191 d then String c (String d (coerce rest1))
            else invalid tt
        | _ => invalid tt
        end
      else if between 224 239 c then
        match rest with
        | String d (String e rest2) =>
            let lo := if N.eqb (code c) 224 then 160%N else 128%N in
            let hi := if N.eqb (code c) 237 then 159%N else 191%N in
            if (between lo hi d && between 128 191 e)%bool
            then String c (String d (String e (coerce rest2)))
            else invalid tt
        | _ => invalid tt
        end
      else if between 240 244 c then
        match rest with
        | String d (String e (String f rest3)) =>
            let lo := if N.eqb (code c) 240 then 144%N else 128%N in
            let hi := if N.eqb (code c) 244 then 143%N else 191%N in
            if (between lo hi d && between 128 191 e && between 128 191 f)%bool
            then String c (String d (String e (String f (coerce rest3))))
            else invalid tt
        | _ => invalid tt
        end
      else invalid tt
  end.

(** The Go string a literal denotes; [units] come last first. *)
Definition unquote (units : list unit_) : string :=
  coerce (unescape (rev units)).

(** An array or an object that is being read; what is done comes last
    first. *)
Inductive frame :=
| inArray (done : list value)
| inObject (done : list (string * value)) (key : option string).

Inductive inString := plain | afterBackslash | afterU (digits : list N).

Inductive inNumber := neg | zero | int | dot | frac | e | eSign | exp.

Inductive mode :=
| beginValue
| beginValueOrEmpty
| beginStringOrEmpty
| beginString
| afterKey
| endValue
| string_ (isKey : bool) (units : list unit_) (at_ : inString)
| number (literal : list ascii) (at_ : inNumber)
| literal (rest : string) (v : value)
| endTop (v : value).

Definition state : Type := list frame * mode.

(** A value is complete: it goes into the array or object around it, or it
    is the document. *)
Definition complete (v : value) (stack : list frame) : option state :=
  match stack with
  | [] => Some ([], endTop v)
  | inArray done :: stack' => Some (inArray (v :: done) :: stack', endValue)
  | inObject done (Some key) :: stack' =>
      Some (inObject ((key, v) :: done) None :: stack', endValue)
  | inObject _ None :: _ => None
  end.

Definition push (f : frame) (stack : list frame) (m : mode) : option state :=
  if N.leb 10000 (N.of_nat (List.length stack)) then None
  else Some (f :: stack, m).

Definition char (n : N) (c : ascii) : bool := N.eqb (code c) n.

(** A byte where a value must begin. *)
Definition stepBeginValue (c : ascii) (stack : list frame) : option state :=
  if char 123 c then push (inObject [] None) stack beginStringOrEmpty
  else if char 91 c then push (inArray []) stack beginValueOrEmpty
  else if char 34 c then Some (stack, string_ false [] plain)
  else if char 45 c then Some (stack, number [c] neg)
  else if char 48 c then Some (stack, number [c] zero)
  else if between 49 57 c then Some (stack, number [c] int)
  else if char 116 c then Some (stack, literal "rue" (Bool true))
  else if char 102 c then Some (stack, literal "alse" (Bool false))
  else if char 110 c then Some (stack, literal "ull" Null)
  else None.

(** A byte behind a complete value. *)
Definition stepEndValue (c : ascii) (stack : list frame) (m : mode)
  : option state :=
  if isSpace c then Some (stack, m)
  else
    match m, stack with
    | endValue, inArray done :: stack' =>
        if char 44 c then Some (stack, beginValue)
        else if char 93 c then complete (Array (rev done)) stack'
        else None
    | endValue, inObject done None :: stack' =>
        if char 44 c then Some (stack, beginString)
        else if char 125 c then complete (Object (rev done)) stack'
        else None
    | _, _ => None
    end.

(** A byte inside a number; a byte that cannot go on with the number ends
    it, where the number may end. *)
Definition stepNumber (c : ascii) (stack : list frame) (lit : list ascii)
  (at_ : inNumber) : option state :=
  let go (n : inNumber) := Some (stack, number (c :: lit) n) in
  let finish :=
    match complete (Number (string_of_list_ascii (rev lit))) stack with
    | Some (stack', m) => stepEndValue c stack' m
    | None => None
    end in
  let isE := (char 101 c || char 69 c)%bool in
  match at_ with
  | neg => if char 48 c then go zero
           else if between 49 57 c then go int else None
  | zero => if char 46 c then go dot else if isE then go e else finish
  | int => if isDigit c then go int
           else if char 46 c then go dot else if isE then go e else finish
  | dot => if isDigit c then go frac else None
  | frac => if isDigit c then go frac else if isE then go e else finish
  | e => if (char 43 c || char 45 c)%bool then go eSign
         else if isDigit c then go exp else None
  | eSign => if isDigit c then go exp else None
  | exp => if isDigit c then go exp else finish
  end.

(** A byte inside a string literal. *)
Definition stepString (c : ascii) (stack : list frame) (isKey : bool)
  (units : list unit_) (at_ : inString) : option state :=
  let go (us : list unit_) (a : inString) :=
    Some (stack, string_ isKey us a) in
  match at_ with
  | plain =>
      if char 34 c then
        if isKey then
          match stack with
          | inObject done None :: stack' =>
              Some (inObject done (Some (unquote units)) :: stack', afterKey)
          | _ => None
          end
        else complete (String_ (unquote units)) stack
      else if char 92 c then go units afterBackslash
      else if N.ltb (code c) 32 then None
      else go (raw c :: units) plain
  | afterBackslash =>
      if (char 34 c || char 92 c || char 47 c)%bool then go (raw c :: units) plain
      else if char 98 c then go (raw (chr 8) :: units) plain
      else if char 102 c then go (raw (chr 12) :: units) plain
      else if char 110 c then go (raw (chr 10) :: units) plain
      else if char 114 c then go (raw (chr 13) :: units) plain
      else if char 116 c then go (raw (chr 9) :: units) plain
      else if char 117 c then go units (afterU [])
      else None
  | afterU digits =>
      match hex c with
      | Some d =>
          match digits with
          | [d3; d2; d1] =>
              go (escaped (4096 * d1 + 256 * d2 + 16 * d3 + d) :: units) plain
          | _ => go units (afterU (d :: digits))
          end
      | None => None
      end
  end.

(** One byte. *)
Definition step (st : state) (c : ascii) : option state :=
  let (stack, m) := st in
  match m with
  | beginValue =>
      if isSpace c then Some st else stepBeginValue c stack
  | beginValueOrEmpty =>
      if isSpace c then Some st
      else if char 93 c then
        match stack with
        | inArray done :: stack' => complete (Array (rev done)) stack'
        | _ => None
        end
      else stepBeginValue c stack
  | beginStringOrEmpty =>
      if isSpace c then Some st
      else if char 125 c then
        match stack with
        | inObject done None :: stack' => complete (Object (rev done)) stack'
        | _ => None
        end
      else if char 34 c then Some (stack, string_ true [] plain)
      else None
  | beginString =>
      if isSpace c then Some st
      else if char 34 c then Some (stack, string_ true [] plain)
      else None
  | afterKey =>
      if isSpace c then Some st
      else if char 58 c then Some (stack, beginValue)
      else None
  | endValue | endTop _ => stepEndValue c stack m
  | string_ isKey units at_ => stepString c stack isKey units at_
  | number lit at_ => stepNumber c stack lit at_
  | literal rest v =>
      match rest with
      | String x rest' =>
          if Ascii.eqb c x then
            match rest' with
            | EmptyString => complete v stack
            | _ => Some (stack, literal rest' v)
            end
          else None
      | EmptyString => None
      end
  end.

Fixpoint run (st : state) (text : string) : option state :=
  match text with
  | EmptyString => Some st
  | String c text' =>
      match step st c with
      | Some st' => run st' text'
      | None => None
      end
  end.

(** The document a text denotes, if it is a JSON text: at its end the
    document must be complete. *)
Definition scan (text : string) : option value :=
  match run ([], beginValue) text with
  | Some ([], endTop v) => Some v
  | Some ([], number lit at_) =>
      match at_ with
      | zero | int | frac | exp =>
          Some (Number (string_of_list_ascii (rev lit)))
      | _ => None
      end
  | _ => None
  end.

End scanner.

(** * A registry to run on

    A world with a handful of images, standing in for the collaborators in
    concrete runs.  Errors are messages; a reference is a transport name and
    what follows it; the handles of an image are the image itself. *)

Module fixture.

(** A JSON text written with ['] where JSON has the double quote. *)
Definition text (s : string) : string :=
  string_of_list_ascii
    (map (fun c => if Ascii.eqb c "'" then ascii_of_nat 34 else c)
       (list_ascii_of_string s)).

Record image := {
  transport : string;
  name : string;
  manifest : string;       (* what the registry serves as the manifest *)
  mimeType : string;
  architecture : string    (* what the image's configuration declares *)
}.

Definition handles : Handles :=
  {| error := string;
     SystemContext := string;
     ImageReference := string * string;
     ImageSource := image;
     ImageCloser := image;
     PolicyContext := Policy |}.

Definition images : list image :=
  [ {| transport := "docker"; name := "reg.example.com/app:v1";
       manifest := text
         "{'schemaVersion':2,'mediaType':'application/vnd.docker.distribution.manifest.v2+json','config':{'mediaType':'application/vnd.docker.container.image.v1+json','size':1469,'digest':'sha256:aa11'},'layers':[{'mediaType':'application/vnd.docker.image.rootfs.diff.tar.gzip','size':2811,'digest':'sha256:bb22'}]}";
       mimeType := "application/vnd.docker.distribution.manifest.v2+json";
       architecture := "amd64" |};
    {| transport := "docker"; name := "reg.example.com/multi:v1";
       manifest := text
         "{'schemaVersion':2,'mediaType':'application/vnd.docker.distribution.manifest.list.v2+json','manifests':[{'mediaType':'application/vnd.docker.distribution.manifest.v2+json','size':528,'digest':'sha256:cc33','platform':{'architecture':'amd64','os':'linux'}},{'mediaType':'application/vnd.docker.distribution.manifest.v2+json','size':528,'digest':'sha256:dd44','platform':{'architecture':'arm64','os':'linux','variant':'v8'}}]}";
       mimeType := "application/vnd.docker.distribution.manifest.list.v2+json";
       architecture := "amd64" |};
    {| transport := "docker"; name := "reg.example.com/broken:v1";
       manifest := text "{'schemaVersion':2,'mediaType':'application/vnd.do";
       mimeType := "application/vnd.docker.distribution.manifest.v2+json";
       architecture := "amd64" |};
    {| transport := "docker"; name := "reg.example.com/built:v1";
       manifest := text
         "{'Manifests':[{'Annotations':{'org.opencontainers.image.ref.name':'app:v1'}}]}";
       mimeType := "application/vnd.oci.image.index.v1+json";
       architecture := "amd64" |};
    {| transport := "oci"; name := "/var/lib/images/app:v1";
       manifest := text
         "{'schemaVersion':2,'mediaType':'application/vnd.oci.image.manifest.v1+json','config':{'mediaType':'application/vnd.oci.image.config.v1+json','size':1469,'digest':'sha256:aa11'},'layers':[]}";
       mimeType := "application/vnd.oci.image.manifest.v1+json";
       architecture := "amd64" |} ].

(** [strings.Cut s sep] for a separator of one byte. *)
Fixpoint Cut (s : string) (sep : ascii) : option (string * string) :=
  match s with
  | EmptyString => None
  | String c s' =>
      if Ascii.eqb c sep then Some (EmptyString, s')
      else
        match Cut s' sep with
        | Some (before, after) => Some (String c before, after)
        | None => None
        end
  end.

Definition dropPrefix (s : string) (n : nat) : string :=
  String.substring n (String.length s - n) s.

(** A reference of the docker transport starts with ["//"]. *)
Definition parseReference (refString : string)
  : result string (string * string) :=
  if strings.HasPrefix refString "//"
  then Ok ("docker", dropPrefix refString 2)
  else Err "docker: image reference does not start with //".

(** An image name is a transport, a colon, and a reference of that
    transport. *)
Definition parseImageName (imgName : string)
  : result string (string * string) :=
  match Cut imgName ":" with
  | None => Err "invalid image name, expected colon-separated transport:reference"
  | Some (transportName, withinTransport) =>
      if String.eqb transportName "docker" then parseReference withinTransport
      else if (String.eqb transportName "oci" || String.eqb transportName "dir"
               || String.eqb transportName "docker-archive")%bool
      then Ok (transportName, withinTransport)
      else Err "unknown transport"
  end.

Definition lookup (ref : string * string) : result string image :=
  match find (fun i => (String.eqb (transport i) (fst ref)
                        && String.eqb (name i) (snd ref))%bool) images with
  | Some i => Ok i
  | None => Err "manifest unknown"
  end.

Definition world : World handles :=
  Build_World handles
    (* ParseImageName *) parseImageName
    (* NewImageSource *) (fun ref _ => lookup ref)
    (* GetManifest *) (fun src => Ok (manifest src, mimeType src))
    (* scan *) scanner.scan
    (* ParseReference *) parseReference
    (* NewImage *) (fun ref _ => lookup ref)
    (* Inspect *)
    (fun img => Ok {| inspect_Architecture := architecture img;
                      inspect_Os := "linux" |})
    (* NewPolicyContext *) (fun policy => Ok policy)
    (* copy_Image *)
    (fun _ _ srcRef _ _ _ =>
       match lookup srcRef with
       | Ok i => Ok (manifest i)
       | Err e => Err e
       end).

(** The options that name a source and a destination, the latter with its
    target architecture. *)
Definition options (src dest destArch : string) : CopyImageOptions handles :=
  @Build_CopyImageOptions handles
    (@Build_srcImageOptions handles src "")
    (@Build_destImageOptions handles {| arch := destArch |} dest destArch).

(** Sources and a destination to run on. *)
Definition app : string := "docker://reg.example.com/app:v1".
Definition multi : string := "docker://reg.example.com/multi:v1".
Definition broken : string := "docker://reg.example.com/broken:v1".
Definition built : string := "docker://reg.example.com/built:v1".
Definition layout : string := "oci:/var/lib/images/app:v1".
Definition mirror : string := "docker://mirror.local/app:v1".

End fixture.

(** * Further notions *)

Module pieces.

(** [strings.Join elems sep]. *)
Fixpoint Join (elems : list string) (sep : string) : string :=
  match elems with
  | [] => ""
  | [a] => a
  | a :: rest => a ++ sep ++ Join rest sep
  end.

(** No occurrence of [sep] in [pre ++ sep] begins inside [pre]. *)
Definition first_at_end (pre sep : string) : Prop :=
  forall a b, pre = a ++ b -> b <> "" -> strings.HasPrefix (b ++ sep) sep = false.

End pieces.

(** The documents that fit the types of [ImageManifest]: what each Go type
    accepts from JSON. *)
Module schema.
Import json decode.

Definition fits_string (v : value) : bool :=
  match v with
  | Null | String_ _ => true
  | _ => false
  end.

Definition fits_int (v : value) : bool :=
  match v with
  | Null => true
  | Number lit => match ParseInt lit with Some _ => true | None => false end
  | _ => false
  end.

Definition fits_struct {F : Type} (fields : list (string * F))
  (fits_field : F -> value -> bool) (v : value) : bool :=
  match v with
  | Null => true
  | Object members =>
      forallb (fun kv =>
                 match fieldByName fields (fst kv) with
                 | Some f => fits_field f (snd kv)
                 | None => true
                 end) members
  | _ => false
  end.

Definition fits_slice (fits_elem : value -> bool) (v : value) : bool :=
  match v with
  | Null => true
  | Array elems => forallb fits_elem elems
  | _ => false
  end.

Definition fits_PlatformDetails : value -> bool :=
  fits_struct PlatformDetails_fields (fun _ => fits_string).

Definition fits_ManifestEntry : value -> bool :=
  fits_struct ManifestEntry_fields
    (fun f => match f with
              | fDigest | fEntryMediaType => fits_string
              | fPlatform => fits_PlatformDetails
              | fSize => fits_int
              end).

Definition fits_ImageManifest : value -> bool :=
  fits_struct ImageManifest_fields
    (fun f => match f with
              | fManifests => fits_slice fits_ManifestEntry
              | fMediaType => fits_string
              | fSchemaVersion => fits_int
              end).

(** The tag of a field of [ImageManifest]. *)
Definition tag (f : ImageManifest_field) : string :=
  match f with
  | fManifests => "manifests"
  | fMediaType => "mediaType"
  | fSchemaVersion => "schemaVersion"
  end.

(** The members of an object that name a field of [ImageManifest]. *)
Definition known (members : list (string * value)) : list (string * value) :=
  filter (fun kv =>
            match fieldByName ImageManifest_fields (fst kv) with
            | Some _ => true
            | None => false
            end) members.

End schema.

(** Worlds in which one collaborator fails, over the registry of
    [fixture]. *)
Module outage.
Import fixture.

(** The registry cannot be reached: no image source is opened. *)
Definition unreachable : World handles :=
  Build_World handles (ParseImageName world)
    (fun _ _ => Err "connection refused")
    (GetManifest world) (scan world) (ParseReference world) (NewImage world)
    (Inspect world) (NewPolicyContext world) (copy_Image world).

(** The registry serves no manifest. *)
Definition no_manifest : World handles :=
  with_GetManifest world (fun _ => Err "manifest unknown").

(** The registry refuses to open an image. *)
Definition locked : World handles :=
  Build_World handles (ParseImageName world) (NewImageSource world)
    (GetManifest world) (scan world) (ParseReference world)
    (fun _ _ => Err "unauthorized")
    (Inspect world) (NewPolicyContext world) (copy_Image world).

(** The configuration of an image cannot be read. *)
Definition unreadable : World handles :=
  Build_World handles (ParseImageName world) (NewImageSource world)
    (GetManifest world) (scan world) (ParseReference world) (NewImage world)
    (fun _ => Err "blob unknown")
    (NewPolicyContext world) (copy_Image world).


End outage.

(** * Package [v1alpha1]: the generated deep copies

    The copies allocate: slices and pointers are modelled with the memory
    they refer to.  A store holds the backing arrays of one element type, by
    address; a slice is nil or the view of [len] elements from [offset] on of
    the array at [array]; [new] and [make] allocate at the next address. *)

Module v1alpha1.

Record slice := { array : nat; offset : nat; len : nat }.

Section Memory.
Context {A : Type}.

Definition store : Type := list (list A).

Definition backing (st : store) (l : nat) : list A := nth l st [].

(** The elements a slice shows. *)
Definition view (st : store) (s : slice) : list A :=
  firstn (len s) (skipn (offset s) (backing st (array s))).

Definition elements (st : store) (s : option slice) : list A :=
  match s with
  | Some s => view st s
  | None => []
  end.

(** A slice that lies within an array of the store. *)
Definition inBounds (st : store) (s : option slice) : Prop :=
  match s with
  | Some s =>
      array s < List.length st /\
      offset s + len s <= List.length (backing st (array s))
  | None => True
  end.

(** [make([]T, n)]: a new array of [n] zero values and the slice of all of
    it. *)
Definition make (zero : A) (n : nat) (st : store) : store * slice :=
  ((st ++ [repeat zero n])%list,
   {| array := List.length st; offset := 0; len := n |}).

Definition setArray (st : store) (l : nat) (arr : list A) : store :=
  (firstn l st ++ arr :: skipn (S l) st)%list.

(** [copy(dst, src)]: as many elements as both slices have go from [src] to
    the front of [dst]. *)
Definition copy (st : store) (dst src : slice) : store :=
  let n := Nat.min (len dst) (len src) in
  let arr := backing st (array dst) in
  setArray st (array dst)
    (firstn (offset dst) arr ++ firstn n (view st src)
       ++ skipn (offset dst + n) arr)%list.

(** [s[i] = x], for [i] within the slice. *)
Definition set (st : store) (s : slice) (i : nat) (x : A) : store :=
  let arr := backing st (array s) in
  setArray st (array s)
    (firstn (offset s + i) arr ++ x :: skipn (S (offset s + i)) arr)%list.

(** The copy of a slice as the generated code writes it:
    [if in != nil { out = make([]T, len(in)); copy(out, in) }]. *)
Definition copySlice (zero : A) (st : store) (in_ : option slice)
  : store * option slice :=
  match in_ with
  | Some s =>
      let (st', out) := make zero (len s) st in
      (copy st' out s, Some out)
  | None => (st, None)
  end.

(** The store [st'] has the arrays of [st] as they were, and maybe more. *)
Definition grows (st st' : store) : Prop :=
  List.length st <= List.length st' /\
  forall l, l < List.length st -> backing st' l = backing st l.

End Memory.
Arguments store : clear implicits.

(** The types of [k8s.io/apimachinery] that the package embeds, and the
    fields of plain value that the structs of the package have besides those
    the copies treat: all declared outside the file at hand.
    [TaskHostResult] holds plain values only, as its copy is an
    assignment. *)
Record Kinds := {
  RawExtension : Type;
  TypeMeta : Type;
  ObjectMeta : Type;
  ListMeta : Type;
  ModulePlain : Type;
  TaskSpecPlain : Type;
  TaskStatusPlain : Type;
  TaskHostResult : Type
}.

Section Types.
Context {K : Kinds}.

Record Module_ := {            (* Module *)
  Module_plain : ModulePlain K;
  Args : RawExtension K
}.

Record TaskSpec := {
  TaskSpec_plain : TaskSpecPlain K;
  Hosts : option slice;          (* []string *)
  IgnoreError : option nat;      (* *bool *)
  When : option slice;           (* []string *)
  FailedWhen : option slice;     (* []string *)
  Loop : RawExtension K;
  Module : Module_
}.

Record TaskStatus := {
  TaskStatus_plain : TaskStatusPlain K;
  HostResults : option slice     (* []TaskHostResult *)
}.

Record Task := {
  Task_TypeMeta : TypeMeta K;      (* TypeMeta *)
  Task_ObjectMeta : ObjectMeta K;  (* ObjectMeta *)
  Spec : TaskSpec;
  Status : TaskStatus
}.

Record TaskList := {
  TaskList_TypeMeta : TypeMeta K;  (* TypeMeta *)
  TaskList_ListMeta : ListMeta K;  (* ListMeta *)
  Items : option slice           (* []Task *)
}.

(** The memory the package's values live in: the arrays of strings, the
    cells of the [*bool], the arrays of host results, the arrays of tasks. *)
Record Heap := {
  stringArrays : store string;
  boolCells : list bool;
  hostResultArrays : store (TaskHostResult K);
  taskArrays : store Task
}.

Definition with_stringArrays (h : Heap) (st : store string) : Heap :=
  {| stringArrays := st; boolCells := boolCells h;
     hostResultArrays := hostResultArrays h; taskArrays := taskArrays h |}.

Definition with_boolCells (h : Heap) (cells : list bool) : Heap :=
  {| stringArrays := stringArrays h; boolCells := cells;
     hostResultArrays := hostResultArrays h; taskArrays := taskArrays h |}.

Definition with_hostResultArrays (h : Heap) (st : store (TaskHostResult K)) : Heap :=
  {| stringArrays := stringArrays h; boolCells := boolCells h;
     hostResultArrays := st; taskArrays := taskArrays h |}.

Definition with_taskArrays (h : Heap) (st : store Task) : Heap :=
  {| stringArrays := stringArrays h; boolCells := boolCells h;
     hostResultArrays := hostResultArrays h; taskArrays := st |}.

(** The deep copies of the embedded types, which their own packages
    generate, and the zero values that [make] fills a new array with. *)
Record Copies := {
  RawExtension_DeepCopyInto : RawExtension K -> RawExtension K;
  ObjectMeta_DeepCopyInto : ObjectMeta K -> ObjectMeta K;
  ListMeta_DeepCopyInto : ListMeta K -> ListMeta K;
  zero_TaskHostResult : TaskHostResult K;
  zero_Task : Task
}.

Variable D : Copies.

(** [func (in *TaskHostResult) DeepCopyInto(out *TaskHostResult)] *)
Definition TaskHostResult_DeepCopyInto (in_ : TaskHostResult K)
  : TaskHostResult K :=
  in_.

(** [func (in *TaskHostResult) DeepCopy() *TaskHostResult]: nil for nil. *)
Definition TaskHostResult_DeepCopy (in_ : option (TaskHostResult K))
  : option (TaskHostResult K) :=
  match in_ with
  | None => None
  | Some v => Some (TaskHostResult_DeepCopyInto v)
  end.

(** [func (in *Module) DeepCopyInto(out *Module)] *)
Definition Module_DeepCopyInto (in_ : Module_) : Module_ :=
  {| Module_plain := Module_plain in_;
     Args := RawExtension_DeepCopyInto D (Args in_) |}.

(** [func (in *Module) DeepCopy() *Module] *)
Definition Module_DeepCopy (in_ : option Module_) : option Module_ :=
  match in_ with
  | None => None
  | Some v => Some (Module_DeepCopyInto v)
  end.

(** One of the three slices of strings of a [TaskSpec] is copied. *)
Definition copyStrings (h : Heap) (in_ : option slice) : Heap * option slice :=
  let (st, out) := copySlice "" (stringArrays h) in_ in
  (with_stringArrays h st, out).

(** [if in != nil { out = new(bool); *out = *in }] *)
Definition copyBool (h : Heap) (in_ : option nat) : Heap * option nat :=
  match in_ with
  | Some p =>
      (with_boolCells h (boolCells h ++ [nth p (boolCells h) false])%list,
       Some (List.length (boolCells h)))
  | None => (h, None)
  end.

(** [func (in *TaskSpec) DeepCopyInto(out *TaskSpec)] *)
Definition TaskSpec_DeepCopyInto (h : Heap) (in_ : TaskSpec) : Heap * TaskSpec :=
  let (h1, hosts) := copyStrings h (Hosts in_) in
  let (h2, ignoreError) := copyBool h1 (IgnoreError in_) in
  let (h3, when) := copyStrings h2 (When in_) in
  let (h4, failedWhen) := copyStrings h3 (FailedWhen in_) in
  (h4,
   {| TaskSpec_plain := TaskSpec_plain in_;
      Hosts := hosts;
      IgnoreError := ignoreError;
      When := when;
      FailedWhen := failedWhen;
      Loop := RawExtension_DeepCopyInto D (Loop in_);
      Module := Module_DeepCopyInto (Module in_) |}).

(** [func (in *TaskSpec) DeepCopy() *TaskSpec] *)
Definition TaskSpec_DeepCopy (h : Heap) (in_ : option TaskSpec)
  : Heap * option TaskSpec :=
  match in_ with
  | None => (h, None)
  | Some v => let (h', out) := TaskSpec_DeepCopyInto h v in (h', Some out)
  end.

(** [func (in *TaskStatus) DeepCopyInto(out *TaskStatus)] *)
Definition TaskStatus_DeepCopyInto (h : Heap) (in_ : TaskStatus)
  : Heap * TaskStatus :=
  let (st, results) :=
    copySlice (zero_TaskHostResult D) (hostResultArrays h) (HostResults in_) in
  (with_hostResultArrays h st,
   {| TaskStatus_plain := TaskStatus_plain in_; HostResults := results |}).

(** [func (in *TaskStatus) DeepCopy() *TaskStatus] *)
Definition TaskStatus_DeepCopy (h : Heap) (in_ : option TaskStatus)
  : Heap * option TaskStatus :=
  match in_ with
  | None => (h, None)
  | Some v => let (h', out) := TaskStatus_DeepCopyInto h v in (h', Some out)
  end.

(** [func (in *Task) DeepCopyInto(out *Task)] *)
Definition Task_DeepCopyInto (h : Heap) (in_ : Task) : Heap * Task :=
  let (h1, spec) := TaskSpec_DeepCopyInto h (Spec in_) in
  let (h2, status) := TaskStatus_DeepCopyInto h1 (Status in_) in
  (h2,
   {| Task_TypeMeta := Task_TypeMeta in_;
      Task_ObjectMeta := ObjectMeta_DeepCopyInto D (Task_ObjectMeta in_);
      Spec := spec;
      Status := status |}).

(** [func (in *Task) DeepCopy() *Task] *)
Definition Task_DeepCopy (h : Heap) (in_ : option Task) : Heap * option Task :=
  match in_ with
  | None => (h, None)
  | Some v => let (h', out) := Task_DeepCopyInto h v in (h', Some out)
  end.

(** The loop over the items, [in[i].DeepCopyInto(&out[i])] for each index:
    here from [i] on, for [n] elements. *)
Fixpoint copyItems (h : Heap) (in_ out : slice) (i n : nat) : Heap :=
  match n with
  | O => h
  | S n' =>
      let element :=
        nth (offset in_ + i) (backing (taskArrays h) (array in_)) (zero_Task D) in
      let (h', copied) := Task_DeepCopyInto h element in
      copyItems (with_taskArrays h' (set (taskArrays h') out i copied))
        in_ out (S i) n'
  end.

(** [func (in *TaskList) DeepCopyInto(out *TaskList)] *)
Definition TaskList_DeepCopyInto (h : Heap) (in_ : TaskList) : Heap * TaskList :=
  let (h', items) :=
    match Items in_ with
    | Some s =>
        let (st, out) := make (zero_Task D) (len s) (taskArrays h) in
        (copyItems (with_taskArrays h st) s out 0 (len s), Some out)
    | None => (h, None)
    end in
  (h',
   {| TaskList_TypeMeta := TaskList_TypeMeta in_;
      TaskList_ListMeta := ListMeta_DeepCopyInto D (TaskList_ListMeta in_);
      Items := items |}).

(** [func (in *TaskList) DeepCopy() *TaskList] *)
Definition TaskList_DeepCopy (h : Heap) (in_ : option TaskList)
  : Heap * option TaskList :=
  match in_ with
  | None => (h, None)
  | Some v => let (h', out) := TaskList_DeepCopyInto h v in (h', Some out)
  end.

(** [runtime.Object], as far as this package fills it: the nil interface, or
    an interface that holds a pointer to a [Task] or to a [TaskList]. *)
Inductive Object :=
| nilObject
| TaskObject (p : option Task)
| TaskListObject (p : option TaskList).

(** [func (in *Task) DeepCopyObject() runtime.Object] *)
Definition Task_DeepCopyObject (h : Heap) (in_ : option Task) : Heap * Object :=
  let (h', c) := Task_DeepCopy h in_ in
  match c with
  | Some _ => (h', TaskObject c)
  | None => (h', nilObject)
  end.

(** [func (in *TaskList) DeepCopyObject() runtime.Object] *)
Definition TaskList_DeepCopyObject (h : Heap) (in_ : option TaskList)
  : Heap * Object :=
  let (h', c) := TaskList_DeepCopy h in_ in
  match c with
  | Some _ => (h', TaskListObject c)
  | None => (h', nilObject)
  end.

(** What a [TaskSpec] refers to lies within the memory. *)
Definition TaskSpec_inBounds (h : Heap) (v : TaskSpec) : Prop :=
  inBounds (stringArrays h) (Hosts v) /\
  inBounds (stringArrays h) (When v) /\
  inBounds (stringArrays h) (FailedWhen v) /\
  match IgnoreError v with
  | Some p => p < List.length (boolCells h)
  | None => True
  end.

(** What a [TaskStatus] and a [Task] refer to lies within the memory. *)
Definition TaskStatus_inBounds (h : Heap) (v : TaskStatus) : Prop :=
  inBounds (hostResultArrays h) (HostResults v).

Definition Task_inBounds (h : Heap) (v : Task) : Prop :=
  TaskSpec_inBounds h (Spec v) /\ TaskStatus_inBounds h (Status v).

(** The strings a [TaskSpec] holds, the bool it points to, and the host
    results a [TaskStatus] holds: what the memory says of a value. *)
Definition TaskSpec_strings (h : Heap) (v : TaskSpec)
  : list string * list string * list string :=
  (elements (stringArrays h) (Hosts v),
   elements (stringArrays h) (When v),
   elements (stringArrays h) (FailedWhen v)).

(** The memory [h'] has all that [h] had as it was, and maybe more. *)
Definition extends (h h' : Heap) : Prop :=
  grows (stringArrays h) (stringArrays h') /\
  (exists more, boolCells h' = (boolCells h ++ more)%list) /\
  grows (hostResultArrays h) (hostResultArrays h') /\
  grows (taskArrays h) (taskArrays h').

(** What a pointer to a bool points to. *)
Definition deref (h : Heap) (p : option nat) : option bool :=
  match p with
  | Some p => nth_error (boolCells h) p
  | None => None
  end.

(** All that a [Task] says, the embedded [ObjectMeta] apart: its plain
    fields, and what the memory shows behind its slices and its pointer. *)
Definition Task_values (h : Heap) (t : Task) :=
  (Task_TypeMeta t,
   TaskSpec_plain (Spec t),
   TaskSpec_strings h (Spec t),
   deref h (IgnoreError (Spec t)),
   TaskStatus_plain (Status t),
   elements (hostResultArrays h) (HostResults (Status t))).

(** A slice that was not there before: its array lies behind the [n] arrays
    the store had, and the slice is all of it. *)
Definition fresh {A : Type} (n : nat) (st : store A) (s : option slice) : Prop :=
  match s with
  | Some s =>
      n <= array s /\ offset s = 0 /\
      len s = List.length (backing st (array s))
  | None => True
  end.

End Types.

End v1alpha1.

(** A task to copy: its host slice is the front of a longer array, and its
    two condition slices are one and the same. *)
Module sample.
Import v1alpha1.

Definition kinds : Kinds :=
  {| RawExtension := string; TypeMeta := string; ObjectMeta := string;
     ListMeta := string; ModulePlain := string; TaskSpecPlain := string;
     TaskStatusPlain := string; TaskHostResult := string |}.

Definition spec : @TaskSpec kinds :=
  @Build_TaskSpec kinds
    (* plain *) "install"
    (* Hosts *) (Some {| array := 0; offset := 0; len := 2 |})
    (* IgnoreError *) (Some 0)
    (* When *) (Some {| array := 1; offset := 0; len := 1 |})
    (* FailedWhen *) (Some {| array := 1; offset := 0; len := 1 |})
    (* Loop *) ""
    (* Module *) (@Build_Module_ kinds "command" "echo").

Definition status : @TaskStatus kinds :=
  @Build_TaskStatus kinds "Running"
    (Some {| array := 0; offset := 1; len := 1 |}).

Definition task : @Task kinds :=
  @Build_Task kinds "Task" "install-1" spec status.

Definition copies : @Copies kinds :=
  @Build_Copies kinds (fun raw => raw) (fun meta => meta) (fun meta => meta)
    (* zero_TaskHostResult *) ""
    (* zero_Task *)
    (@Build_Task kinds "" ""
       (@Build_TaskSpec kinds "" None None None None ""
          (@Build_Module_ kinds "" ""))
       (@Build_TaskStatus kinds "" None)).

Definition heap : @Heap kinds :=
  @Build_Heap kinds
    (* stringArrays *) [["node1"; "node2"; "spare"]; ["os == linux"]]
    (* boolCells *) [true]
    (* hostResultArrays *) [["old"; "node1: ok"]]
    (* taskArrays *) [[task; task]].

Definition list : @TaskList kinds :=
  @Build_TaskList kinds "TaskList" ""
    (Some {| array := 0; offset := 0; len := 2 |}).

End sample.
(** * Facts about [strings] *)

Lemma append_empty_r (s : string) : s ++ "" = s.
Proof. induction s as [| c s IH]; simpl; [reflexivity | now rewrite IH]. Qed.

Lemma append_assoc (a b c : string) : (a ++ b) ++ c = a ++ (b ++ c).
Proof. induction a as [| x a IH]; simpl; [reflexivity | now rewrite IH]. Qed.

Lemma HasPrefix_spec (s p : string) :
  strings.HasPrefix s p = true <-> exists post, s = p ++ post.
Proof.
  revert s; induction p as [| x p IH]; intros s; simpl.
  - split; [intros _; now exists s | reflexivity].
  - destruct s as [| c s]; simpl.
    + split; [discriminate | intros [post Hp]; discriminate].
    + rewrite andb_true_iff, Ascii.eqb_eq, IH. split.
      * intros [-> [post ->]]. now exists post.
      * intros [post Hp]. injection Hp as -> ->. split; [reflexivity | now exists post].
Qed.

(** [strings.Contains] holds exactly of the strings that have [sub] as a
    substring. *)
Lemma Contains_spec (s sub : string) :
  strings.Contains s sub = true <-> exists pre post, s = pre ++ sub ++ post.
Proof.
  induction s as [| c s IH]; simpl.
  - rewrite orb_false_r, HasPrefix_spec. split.
    + intros [post Hp]. now exists "", post.
    + intros [pre [post Hp]]. destruct pre; simpl in Hp; [now exists post | discriminate].
  - rewrite orb_true_iff, HasPrefix_spec, IH. split.
    + intros [[post Hp] | [pre [post Hp]]].
      * now exists "", post.
      * exists (String c pre), post. simpl. now rewrite Hp.
    + intros [pre [post Hp]]. destruct pre as [| x pre]; simpl in Hp.
      * left. now exists post.
      * right. injection Hp as _ Hp. now exists pre, post.
Qed.

(** Without an occurrence of the separator, [Split] gives one piece. *)
Lemma genSplit_without_separator (sep cur s : string) :
  strings.Contains s sep = false -> strings.genSplit sep 0 cur s = [cur ++ s].
Proof.
  revert cur; induction s as [| c s IH]; intros cur Hc; simpl in *.
  - now rewrite append_empty_r.
  - apply orb_false_iff in Hc as [Hp Hc].
    destruct sep as [| x sep]; [discriminate |].
    simpl in Hp. simpl. rewrite Hp, (IH _ Hc), append_assoc. reflexivity.
Qed.

Lemma Split_without_separator (s sep : string) :
  strings.Contains s sep = false -> strings.Split s sep = [s].
Proof. intros Hc. unfold strings.Split. now rewrite genSplit_without_separator. Qed.

Lemma genSplit_not_nil (sep : string) (skip : nat) (cur s : string) :
  strings.genSplit sep skip cur s <> [].
Proof.
  revert skip cur; induction s as [| c s IH]; intros skip cur; simpl.
  - discriminate.
  - destruct skip; [| apply IH].
    destruct (strings.HasPrefix (String c s) sep); [discriminate | apply IH].
Qed.


(** * Facts about the decoder *)

Section DecodeFacts.
Import json decode document.

Lemma saveError_None (saved new : option UnmarshalTypeError) :
  saveError saved new = None -> saved = None /\ new = None.
Proof. destruct saved; simpl; [discriminate | auto]. Qed.

(** Decoding that ends without error has met no error on the way. *)
Lemma into_fields_no_error {S F : Type} (fields : list (string * F))
  (store : F -> value -> S -> S * option UnmarshalTypeError)
  (members : list (string * value)) (cur m : S)
  (saved : option UnmarshalTypeError) :
  into_fields fields store members cur saved = (m, None) -> saved = None.
Proof.
  revert cur saved; induction members as [| [key v] rest IH];
    intros cur saved Hd; simpl in Hd.
  - now injection Hd.
  - destruct (fieldByName fields key) as [f |]; [| now apply IH in Hd].
    destruct (store f v cur) as [cur' e].
    apply IH in Hd. now apply saveError_None in Hd.
Qed.

Lemma into_elems_length {S : Type} (zero : S)
  (elem : value -> S -> S * option UnmarshalTypeError)
  (elems : list value) (cur xs : list S) (saved e : option UnmarshalTypeError) :
  into_elems zero elem elems cur saved = (xs, e) ->
  List.length xs = List.length elems.
Proof.
  revert cur xs saved e; induction elems as [| v rest IH];
    intros cur xs saved e Hd; simpl in Hd.
  - injection Hd as <- _. reflexivity.
  - destruct (elem v (hd zero cur)) as [x ex].
    destruct (into_elems zero elem rest (tl cur) (saveError saved ex))
      as [xs' saved'] eqn:Hrest.
    injection Hd as <- _. simpl. f_equal. eapply IH, Hrest.
Qed.

(** What a slice holds after a member was decoded into it without error. *)
Lemma into_slice_no_error {S : Type} (ty : string) (zero : S)
  (elem : value -> S -> S * option UnmarshalTypeError)
  (v : value) (cur l : option (list S)) :
  into_slice ty zero elem v cur = (l, None) ->
  (v = Null /\ l = None) \/
  (exists elems xs, v = Array elems /\ l = Some xs /\
                    List.length xs = List.length elems).
Proof.
  destruct v as [| b | lit | s | elems | members]; simpl; intros Hd;
    try discriminate.
  - left. injection Hd as <-. auto.
  - right.
    destruct (into_elems zero elem elems
                match cur with Some l0 => l0 | None => [] end None)
      as [xs e] eqn:Hel.
    injection Hd as <- ->. exists elems, xs.
    repeat split. eapply into_elems_length, Hel.
Qed.

(** After decoding without error, [Manifests] is what the last member named
    [manifests] made it, and what it was before when there is none. *)
Lemma into_fields_Manifests (members : list (string * value))
  (cur m : ImageManifest) (saved : option UnmarshalTypeError) :
  into_fields ImageManifest_fields store_ImageManifest members cur saved
    = (m, None) ->
  match last_member names_Manifests members with
  | Some v => decided_by v (Manifests m)
  | None => Manifests m = Manifests cur
  end.
Proof.
  revert cur saved; induction members as [| [key v] rest IH];
    intros cur saved Hd; simpl in Hd |- *.
  - now injection Hd as <- _.
  - unfold names_Manifests at 2.
    destruct (fieldByName ImageManifest_fields key) as [f |].
    + destruct (store_ImageManifest f v cur) as [cur' e] eqn:Hst.
      pose proof (into_fields_no_error _ _ _ _ _ _ Hd) as He.
      apply saveError_None in He as [Hs0 He0]. subst saved e.
      specialize (IH _ _ Hd).
      destruct (last_member names_Manifests rest) as [v' |]; [exact IH |].
      destruct f; simpl in Hst.
      * destruct (into_slice "[]images.ManifestEntry" zero_ManifestEntry
                    into_ManifestEntry v (Manifests cur)) as [l e] eqn:Hsl.
        injection Hst as <- ->. simpl in IH. rewrite IH.
        eapply into_slice_no_error, Hsl.
      * destruct (into_string v (MediaType cur)) as [s e].
        injection Hst as <- _. exact IH.
      * destruct (into_int v (SchemaVersion cur)) as [n e].
        injection Hst as <- _. exact IH.
    + specialize (IH _ _ Hd).
      destruct (last_member names_Manifests rest); exact IH.
Qed.

Lemma into_string_error (v : value) (cur cur' : string) :
  snd (into_string v cur) = snd (into_string v cur').
Proof. now destruct v. Qed.

(** Members that differ only in the declared media type are decoded to
    manifests that differ only in [MediaType], with the same error. *)
Lemma into_fields_mediaType (members members' : list (string * value)) :
  Forall2 same_but_mediaType members members' ->
  forall (cur cur' : ImageManifest) (saved : option UnmarshalTypeError),
  agree cur cur' ->
  agree
    (fst (into_fields ImageManifest_fields store_ImageManifest members cur saved))
    (fst (into_fields ImageManifest_fields store_ImageManifest members' cur' saved))
  /\
  snd (into_fields ImageManifest_fields store_ImageManifest members cur saved)
  = snd (into_fields ImageManifest_fields store_ImageManifest members' cur' saved).
Proof.
  induction 1 as [| [key v] [key' v'] rest rest' [Hk Hv] _ IH];
    intros cur cur' saved Hag; simpl.
  - auto.
  - simpl in Hk, Hv. subst key'.
    destruct Hv as [<- | [Hname [s [s' [-> ->]]]]].
    + destruct (fieldByName ImageManifest_fields key) as [f |]; [| now apply IH].
      destruct Hag as [Hm Hs].
      destruct f; simpl.
      * rewrite <- Hm.
        destruct (into_slice "[]images.ManifestEntry" zero_ManifestEntry
                    into_ManifestEntry v (Manifests cur)) as [l e].
        apply IH. split; simpl; auto.
      * pose proof (into_string_error v (MediaType cur) (MediaType cur')) as He.
        destruct (into_string v (MediaType cur)) as [a e].
        destruct (into_string v (MediaType cur')) as [a' e'].
        simpl in He. subst e'. apply IH. split; simpl; auto.
      * rewrite <- Hs.
        destruct (into_int v (SchemaVersion cur)) as [n e].
        apply IH. split; simpl; auto.
    + unfold names_MediaType in Hname.
      destruct (fieldByName ImageManifest_fields key) as [[| |] |];
        try discriminate.
      simpl. apply IH. destruct Hag. split; simpl; auto.
Qed.

(** Documents that differ only in the declared media type are decoded with
    the same error, to manifests with the same [Manifests]. *)
Lemma into_ImageManifest_mediaType (doc doc' : value) :
  differ_only_in_mediaType doc doc' ->
  snd (into_ImageManifest doc zero_ImageManifest)
    = snd (into_ImageManifest doc' zero_ImageManifest) /\
  Manifests (fst (into_ImageManifest doc zero_ImageManifest))
    = Manifests (fst (into_ImageManifest doc' zero_ImageManifest)).
Proof.
  intros [<- | [members [members' [-> [-> Hall]]]]]; [auto |].
  unfold into_ImageManifest, into_struct.
  destruct (into_fields_mediaType _ _ Hall zero_ImageManifest
              zero_ImageManifest None) as [[Hm _] He]; [split; reflexivity |].
  auto.
Qed.

(** A document decoded without error gives a manifest whose [Manifests] is
    not nil exactly when the document has a top-level [manifests] field that
    is not null. *)
Lemma into_ImageManifest_shape (doc : value) (m : ImageManifest) :
  into_ImageManifest doc zero_ImageManifest = (m, None) ->
  (Manifests m <> None <->
   exists v, manifests_field doc = Some v /\ v <> Null).
Proof.
  unfold into_ImageManifest, into_struct, manifests_field.
  destruct doc as [| b | lit | s | elems | members]; simpl; intros Hd;
    try discriminate.
  - injection Hd as <-. simpl. split; [congruence | intros [v [Hv _]]; discriminate].
  - apply into_fields_Manifests in Hd.
    destruct (last_member names_Manifests members) as [v |].
    + destruct Hd as [[-> ->] | [elems [xs [-> [-> _]]]]].
      * split; [congruence | intros [v [Hv Hn]]; congruence].
      * split; [intros _; eexists; split; [reflexivity | discriminate]
               | discriminate].
    + rewrite Hd. simpl.
      split; [congruence | intros [v [Hv _]]; discriminate].
Qed.

End DecodeFacts.

(** * [Check] *)

(** Running a function body: the control operators are unfolded and the
    answers of the collaborators, given as equations, are put in. *)
Ltac unfold_go :=
  unfold Check, Copy, getPolicyContext, Unmarshal, orReturn, index, defer,
    func, bind, call, ret, return_, panic.

Ltac answer :=
  repeat match goal with
         | E : ?x = _ |- context [?x] => rewrite E; cbn [fst snd app]
         end.

(** Every way a body can go: a case for each answer it looks at, the
    innermost first. *)
Ltac paths :=
  repeat match goal with
         | |- context [match ?x with _ => _ end] =>
             lazymatch x with
             | context [match _ with _ => _ end] => fail
             | _ => idtac
             end;
             destruct x eqn:?;
             cbn beta iota zeta; cbn [fst snd app option_map] in *
         end.

Section CheckPaths.
Context {H : Handles} (W : World H).
Implicit Type c : CopyImageOptions H.
Implicit Type source : srcImageOptions H.

(** What [Check] does once the manifest is fetched depends on the text only
    through what [Unmarshal] makes of it. *)
Lemma Check_fetched c srcRef src data mime :
  ParseImageName W (src_imageName (srcImage c)) = Ok srcRef ->
  NewImageSource W srcRef (src_systemContext (srcImage c)) = Ok src ->
  GetManifest W src = Ok (data, mime) ->
  Check W c =
  match Unmarshal W data zero_ImageManifest with
  | (_, Some err) => (fetched (srcImage c) srcRef src, Returned (false, Some err))
  | (m, None) =>
      match Manifests m with
      | Some _ => (fetched (srcImage c) srcRef src, Returned (true, None))
      | None =>
          match nth_error (strings.Split (src_imageName (srcImage c)) "//") 1 with
          | None =>
              (fetched (srcImage c) srcRef src, Panicked "index out of range")
          | Some piece =>
              let derive := ParseReference_ ("//" ++ piece) in
              match ParseReference W ("//" ++ piece) with
              | Err e =>
                  ((fetched (srcImage c) srcRef src ++ [derive])%list,
                   Returned (false, Some (LibraryError e)))
              | Ok ref =>
                  let open := NewImage_ ref (src_systemContext (srcImage c)) in
                  match NewImage W ref (src_systemContext (srcImage c)) with
                  | Err e =>
                      ((fetched (srcImage c) srcRef src ++ [derive; open])%list,
                       Returned (false, Some (LibraryError e)))
                  | Ok img =>
                      ((fetched (srcImage c) srcRef src
                          ++ inspected (srcImage c) piece ref img)%list,
                       Returned
                         match Inspect W img with
                         | Err e => (false, Some (LibraryError e))
                         | Ok info =>
                             (String.eqb (inspect_Architecture info)
                                (arch (dockerImage (destImage c))), None)
                         end)
                  end
              end
          end
      end
  end.
Proof.
  intros Hp Hs Hg. unfold fetched, inspected. unfold_go. answer.
  destruct (scan W data) as [doc |]; [| reflexivity].
  destruct (decode.into_ImageManifest doc zero_ImageManifest) as [m [e |]];
    [reflexivity |].
  cbn [option_map]. destruct (Manifests m); [reflexivity |].
  destruct (nth_error _ 1) as [piece |]; [| reflexivity].
  destruct (ParseReference W _) as [ref | e]; [| reflexivity].
  destruct (NewImage W ref _) as [img | e]; [| reflexivity].
  destruct (Inspect W img) as [info | e]; [| reflexivity].
  destruct (String.eqb _ _); reflexivity.
Qed.

End CheckPaths.

Section CheckFacts.
Context {H : Handles} (W : World H).
Implicit Type c : CopyImageOptions H.
Implicit Type source : srcImageOptions H.


(** C1.  When the manifest of the source is fetched and decoded to the flat
    shape ([Manifests] is nil) and each step that resolves the image
    succeeds, [Check] returns [(true, nil)] exactly when the [Architecture]
    of the inspected image equals the destination's configured [arch], and
    [(false, nil)] exactly when the two differ. *)
Theorem Check_flat_shape_compares_architecture
  c srcRef src data mime m piece ref img info :
  ParseImageName W (src_imageName (srcImage c)) = Ok srcRef ->
  NewImageSource W srcRef (src_systemContext (srcImage c)) = Ok src ->
  GetManifest W src = Ok (data, mime) ->
  Unmarshal W data zero_ImageManifest = (m, None) ->
  Manifests m = None ->
  nth_error (strings.Split (src_imageName (srcImage c)) "//") 1 = Some piece ->
  ParseReference W ("//" ++ piece) = Ok ref ->
  NewImage W ref (src_systemContext (srcImage c)) = Ok img ->
  Inspect W img = Ok info ->
  (snd (Check W c) = Returned (true, None) <->
   inspect_Architecture info = arch (dockerImage (destImage c))) /\
  (snd (Check W c) = Returned (false, None) <->
   inspect_Architecture info <> arch (dockerImage (destImage c))).
Proof.
  intros Hp Hs Hg Hu Hm Hsplit Hr Hi Hin.
  rewrite (Check_fetched W c srcRef src data mime Hp Hs Hg), Hu, Hm, Hsplit.
  cbn zeta. rewrite Hr, Hi, Hin. cbn [snd].
  destruct (String.eqb_spec (inspect_Architecture info)
              (arch (dockerImage (destImage c)))) as [Heq | Hne].
  - split; split; auto; try discriminate. intros Hne. contradiction.
  - split; split; auto; try discriminate. intros Heq. contradiction.
Qed.

(** C2.  A fetched manifest that decodes is taken for an index exactly when
    its top-level [manifests] field is there and not null, and [Check] takes
    the branch of the index exactly then; the declared [mediaType] has no
    part in it: a manifest that differs in nothing else decodes to the same
    shape, and [Check] does the same on it. *)
Theorem Check_shape_is_structural c srcRef src data mime doc m :
  ParseImageName W (src_imageName (srcImage c)) = Ok srcRef ->
  NewImageSource W srcRef (src_systemContext (srcImage c)) = Ok src ->
  GetManifest W src = Ok (data, mime) ->
  scan W data = Some doc ->
  decode.into_ImageManifest doc zero_ImageManifest = (m, None) ->
  (shape m = IndexShape <->
   exists v, document.manifests_field doc = Some v /\ v <> json.Null) /\
  (shape m = IndexShape <->
   Check W c = (fetched (srcImage c) srcRef src, Returned (true, None))) /\
  (forall data' mime' doc',
     scan W data' = Some doc' ->
     document.differ_only_in_mediaType doc doc' ->
     (exists m', decode.into_ImageManifest doc' zero_ImageManifest = (m', None)
                 /\ shape m' = shape m) /\
     Check (with_GetManifest W (fun _ => Ok (data', mime'))) c = Check W c).
Proof.
  intros Hp Hs Hg Hsc Hd.
  assert (Hshape : shape m = IndexShape <-> Manifests m <> None).
  { unfold shape. destruct (Manifests m); split; congruence. }
  split; [| split].
  - rewrite Hshape. now apply into_ImageManifest_shape.
  - rewrite Hshape, (Check_fetched W c srcRef src data mime Hp Hs Hg).
    unfold Unmarshal. rewrite Hsc, Hd. cbn [option_map].
    destruct (Manifests m) as [entries |].
    + split; [reflexivity | discriminate].
    + split; [congruence |]. unfold fetched, inspected. intros Hc. exfalso.
      revert Hc. paths; discriminate.
  - intros data' mime' doc' Hsc' Hdiff.
    destruct (into_ImageManifest_mediaType doc doc' Hdiff) as [He Hm].
    rewrite Hd in He, Hm. cbn [fst snd] in He, Hm.
    destruct (decode.into_ImageManifest doc' zero_ImageManifest) as [m' e']
      eqn:Hd'.
    cbn [fst snd] in He, Hm. subst e'. split.
    + exists m'. split; [reflexivity |]. unfold shape. now rewrite Hm.
    + rewrite (Check_fetched W c srcRef src data mime Hp Hs Hg).
      rewrite (Check_fetched (with_GetManifest W (fun _ => Ok (data', mime')))
                 c srcRef src data' mime' Hp Hs eq_refl).
      unfold Unmarshal. cbn [scan with_GetManifest].
      rewrite Hsc, Hsc', Hd, Hd'. cbn [option_map]. rewrite <- Hm.
      reflexivity.
Qed.

(** C3.  When the manifest of the source is fetched and decoded to the index
    shape ([Manifests] is not nil), [Check] returns [(true, nil)] whatever
    the destination and its target architecture are and whatever the entries
    hold, and makes no call behind the fetch: no image is opened or
    inspected. *)
Theorem Check_index_shape_is_compatible source srcRef src data mime m entries :
  ParseImageName W (src_imageName source) = Ok srcRef ->
  NewImageSource W srcRef (src_systemContext source) = Ok src ->
  GetManifest W src = Ok (data, mime) ->
  Unmarshal W data zero_ImageManifest = (m, None) ->
  Manifests m = Some entries ->
  forall dest : destImageOptions H,
    Check W {| srcImage := source; destImage := dest |}
    = (fetched source srcRef src, Returned (true, None)).
Proof.
  intros Hp Hs Hg Hu Hm dest.
  rewrite (Check_fetched W {| srcImage := source; destImage := dest |}
             srcRef src data mime Hp Hs Hg), Hu, Hm.
  reflexivity.
Qed.

(** C4, as the code has it.  When the locator of the source parses but holds
    no ["//"] and the fetched manifest has the flat shape, [Check] does not
    return an error: indexing the pieces of the locator panics. *)
Theorem Check_panics_without_separator c srcRef src data mime m :
  ParseImageName W (src_imageName (srcImage c)) = Ok srcRef ->
  NewImageSource W srcRef (src_systemContext (srcImage c)) = Ok src ->
  GetManifest W src = Ok (data, mime) ->
  Unmarshal W data zero_ImageManifest = (m, None) ->
  Manifests m = None ->
  strings.Contains (src_imageName (srcImage c)) "//" = false ->
  Check W c = (fetched (srcImage c) srcRef src, Panicked "index out of range").
Proof.
  intros Hp Hs Hg Hu Hm Hc.
  rewrite (Check_fetched W c srcRef src data mime Hp Hs Hg), Hu, Hm.
  now rewrite (Split_without_separator _ _ Hc).
Qed.

(** C7.  When the manifest of the source is fetched but is no JSON text, or
    is one that does not fit the types of [ImageManifest], [Check] returns
    [(false, err)] with the error of [json.Unmarshal], and makes no call
    behind the fetch: no image is opened or inspected. *)
Theorem Check_undecodable_manifest c srcRef src data mime :
  ParseImageName W (src_imageName (srcImage c)) = Ok srcRef ->
  NewImageSource W srcRef (src_systemContext (srcImage c)) = Ok src ->
  GetManifest W src = Ok (data, mime) ->
  (scan W data = None \/
   exists doc e, scan W data = Some doc /\
     snd (decode.into_ImageManifest doc zero_ImageManifest) = Some e) ->
  exists err,
    (err = SyntaxError \/ exists e, err = TypeError e) /\
    Check W c = (fetched (srcImage c) srcRef src, Returned (false, Some err)).
Proof.
  intros Hp Hs Hg Hbad.
  rewrite (Check_fetched W c srcRef src data mime Hp Hs Hg). unfold Unmarshal.
  destruct Hbad as [-> | [doc [e [-> He]]]].
  - exists SyntaxError. split; [now left | reflexivity].
  - destruct (decode.into_ImageManifest doc zero_ImageManifest) as [m e'].
    cbn [snd] in He. subst e'. exists (TypeError e).
    split; [right; now exists e | reflexivity].
Qed.

(** C9.  [Check] never returns [true] together with an error. *)
Theorem Check_true_has_no_error c b err :
  snd (Check W c) = Returned (b, err) ->
  (err <> None -> b = false) /\ (b = true -> err = None).
Proof.
  unfold_go. paths; cbn [fst snd];
    intros Hr; try discriminate Hr; inversion Hr; subst; split; congruence.
Qed.

(** C10.  [Check] never closes the image source it opens for the fetch, and
    it always closes the image it opens on the flat-shape branch: once
    [NewImage] gave an image, [Check] returns, closing that image is its last
    call, and it is the only close. *)
Theorem Check_handles c :
  (forall src, ~ In (ImageSource_Close_ src) (fst (Check W c))) /\
  (forall ref sys img,
     In (NewImage_ ref sys) (fst (Check W c)) ->
     NewImage W ref sys = Ok img ->
     exists before r,
       Check W c = ((before ++ [Image_Close_ img])%list, Returned r) /\
       forall i, ~ In (Image_Close_ i) before).
Proof.
  split.
  - intros src. unfold_go. paths; cbn [In]; intuition discriminate.
  - intros ref sys img. unfold_go. paths; cbn [In]; intros Hin Hopen;
      repeat match goal with
             | D : _ \/ _ |- _ => destruct D as [D | D]
             | E : _ = _ :> Call H |- _ => discriminate E
             | F : False |- _ => contradiction
             | E : NewImage_ _ _ = NewImage_ _ _ |- _ =>
                 injection E as E1 E2; subst
             end;
      match goal with
      | E : NewImage W ref _ = ?r |- _ =>
          lazymatch r with
          | Ok img => fail
          | _ => rewrite E in Hopen
          end
      end;
      try discriminate Hopen; injection Hopen as ->;
      eexists [_; _; _; _; _; _], _;
      (split; [reflexivity | cbn [In]; intuition discriminate]).
Qed.

End CheckFacts.

(** * [Copy] and [getPolicyContext] *)

Section CopyFacts.
Context {H : Handles} (W : World H).
Implicit Type c : CopyImageOptions H.

(** The ways [Copy] can go. *)
Lemma Copy_paths c :
  let parseSrc := ParseImageName_ (src_imageName (srcImage c)) in
  let parseDest := ParseImageName_ (dest_imageName (destImage c)) in
  Copy W c =
  match NewPolicyContext W acceptAnything with
  | Err e => ([NewPolicyContext_ acceptAnything], Returned (Some (LibraryError e)))
  | Ok pc =>
      match ParseImageName W (src_imageName (srcImage c)) with
      | Err e =>
          ([NewPolicyContext_ acceptAnything; parseSrc; Destroy_ pc],
           Returned (Some (LibraryError e)))
      | Ok srcRef =>
          match ParseImageName W (dest_imageName (destImage c)) with
          | Err e =>
              ([NewPolicyContext_ acceptAnything; parseSrc; parseDest;
                Destroy_ pc],
               Returned (Some (LibraryError e)))
          | Ok destRef =>
              ([NewPolicyContext_ acceptAnything; parseSrc; parseDest;
                copy_Image_ pc destRef srcRef os_Stdout
                  (src_systemContext (srcImage c))
                  (dest_systemContext (destImage c));
                Destroy_ pc],
               Returned
                 match copy_Image W pc destRef srcRef os_Stdout
                         (src_systemContext (srcImage c))
                         (dest_systemContext (destImage c)) with
                 | Err e => Some (LibraryError e)
                 | Ok _ => None
                 end)
          end
      end
  end.
Proof.
  unfold acceptAnything. unfold_go. cbn zeta.
  destruct (NewPolicyContext W _) as [pc | e]; [| reflexivity].
  destruct (ParseImageName W (src_imageName _)) as [srcRef | e];
    [| reflexivity].
  destruct (ParseImageName W (dest_imageName _)) as [destRef | e];
    [| reflexivity].
  destruct (copy_Image W _ _ _ _ _ _); reflexivity.
Qed.

(** C5.  When [Copy] has acquired the policy context, it returns, and on the
    way it destroys the context exactly once, as its last call: that is so
    when a locator does not parse, when the copy fails and when it succeeds.
    When the context cannot be acquired, [Copy] returns that error and
    destroys nothing. *)
Theorem Copy_releases_policy_context c :
  (forall pc, NewPolicyContext W acceptAnything = Ok pc ->
     exists used result,
       Copy W c = ((NewPolicyContext_ acceptAnything :: used
                    ++ [Destroy_ pc])%list, Returned result) /\
       (forall p, ~ In (Destroy_ p) used) /\
       (result = None <->
        exists srcRef destRef copied,
          ParseImageName W (src_imageName (srcImage c)) = Ok srcRef /\
          ParseImageName W (dest_imageName (destImage c)) = Ok destRef /\
          copy_Image W pc destRef srcRef os_Stdout
            (src_systemContext (srcImage c))
            (dest_systemContext (destImage c)) = Ok copied)) /\
  (forall e, NewPolicyContext W acceptAnything = Err e ->
     Copy W c = ([NewPolicyContext_ acceptAnything],
                 Returned (Some (LibraryError e)))).
Proof.
  rewrite Copy_paths. cbn zeta. split.
  - intros pc ->.
    destruct (ParseImageName W (src_imageName _)) as [srcRef | e].
    + destruct (ParseImageName W (dest_imageName _)) as [destRef | e].
      * eexists [_; _; _], _. split; [reflexivity |].
        split; [cbn [In]; intuition discriminate |].
        destruct (copy_Image W _ _ _ _ _ _) as [copied | e] eqn:Hcopy.
        -- split; [intros _; now exists srcRef, destRef, copied | reflexivity].
        -- split; [discriminate |].
           intros [s [d [x [Hs [Hd Hx]]]]]. injection Hs as <-.
           injection Hd as <-. rewrite Hcopy in Hx. discriminate.
      * eexists [_; _], _. split; [reflexivity |].
        split; [cbn [In]; intuition discriminate |].
        split; [discriminate | intros [s [d [x [_ [Hd _]]]]]; discriminate].
    + eexists [_], _. split; [reflexivity |].
      split; [cbn [In]; intuition discriminate |].
      split; [discriminate | intros [s [d [x [Hs _]]]]; discriminate].
  - intros e ->. reflexivity.
Qed.

(** C6.  The first call of [Copy] asks for a policy context of the policy
    whose default requirements are the one requirement that accepts
    anything, with nothing set per transport; no other context is asked for,
    and the context handed to [copy.Image] is the one obtained for that
    policy.  Under that policy every image of every transport and scope is
    allowed whatever signature verification would say. *)
Theorem Copy_policy_accepts_anything c :
  (exists rest,
     fst (Copy W c)
     = NewPolicyContext_ {| Default := [prInsecureAcceptAnything];
                            Transports := [] |} :: rest /\
     forall policy, ~ In (NewPolicyContext_ policy) rest) /\
  (forall pc destRef srcRef out srcCtx destCtx,
     In (copy_Image_ pc destRef srcRef out srcCtx destCtx) (fst (Copy W c)) ->
     NewPolicyContext W {| Default := [prInsecureAcceptAnything];
                           Transports := [] |} = Ok pc) /\
  (forall policy,
     In (NewPolicyContext_ policy) (fst (Copy W c)) ->
     List.length (Default policy) = 1 /\
     forall verify transport identity namespaces,
       signature.IsRunningImageAllowed verify policy transport identity
         namespaces = true).
Proof.
  rewrite Copy_paths. cbn zeta. unfold acceptAnything.
  destruct (NewPolicyContext W _) as [pc | e] eqn:Hnew;
    [destruct (ParseImageName W (src_imageName _)) as [srcRef | e];
     [destruct (ParseImageName W (dest_imageName _)) as [destRef | e] |] |];
    cbn [fst].
  all: split; [eexists; split; [reflexivity | cbn [In]; intuition discriminate] |].
  all: split;
    [ intros pc' d s o sc dc Hin; cbn [In] in Hin;
      repeat (destruct Hin as [Hin | Hin]; try discriminate Hin);
      try contradiction; inversion Hin; subst; reflexivity
    | intros policy Hin; cbn [In] in Hin;
      repeat (destruct Hin as [Hin | Hin]; try discriminate Hin);
      try contradiction; injection Hin as <-; split; reflexivity ].
Qed.

End CopyFacts.

(** * The index model *)

Section IndexFacts.
Import json decode.

Lemma populate_Some (ms l : list Manifest) :
  populate {| Index_Manifests := Some l |} ms
  = {| Index_Manifests := Some (l ++ ms)%list |}.
Proof.
  revert l; induction ms as [| m ms IH]; intros l; unfold populate; simpl.
  - now rewrite app_nil_r.
  - unfold populate in IH. unfold append_Manifest at 2. simpl.
    rewrite IH, <- app_assoc. reflexivity.
Qed.

(** Only the entries of a populated index decide the entries read back: each
    becomes an entry that holds nothing, as no member of a written manifest
    names a field of [ManifestEntry]. *)
Lemma into_elems_of_Manifests (ms : list Manifest) :
  into_elems zero_ManifestEntry into_ManifestEntry
    (map encode.of_Manifest ms) [] None
  = (map (fun _ => zero_ManifestEntry) ms, None).
Proof.
  induction ms as [| m ms IH]; simpl; [reflexivity |].
  simpl in IH. rewrite IH. reflexivity.
Qed.

(** C8.  An index made by [NewIndex] and populated with at least one
    manifest, written as JSON and read back into an [ImageManifest], decodes
    without error to a [Manifests] list that is not nil and has as many
    entries as the index: it has the index shape. *)
Theorem Index_roundtrip_is_index_shape {H : Handles} (W : World H)
  (ms : list Manifest) (data : string) :
  ms <> [] ->
  scan W data = Some (encode.of_Index (populate NewIndex ms)) ->
  exists entries m,
    Unmarshal W data zero_ImageManifest = (m, None) /\
    Manifests m = Some entries /\
    List.length entries = List.length ms /\
    shape m = IndexShape.
Proof.
  intros _ Hscan. unfold Unmarshal. rewrite Hscan.
  unfold NewIndex. rewrite populate_Some. cbn [app].
  unfold encode.of_Index. cbn [Index_Manifests].
  unfold into_ImageManifest, into_struct. cbn [into_fields].
  change (fieldByName ImageManifest_fields "Manifests") with (Some fManifests).
  cbn iota. unfold store_ImageManifest, into_slice.
  cbn [Manifests zero_ImageManifest].
  rewrite into_elems_of_Manifests. cbn.
  eexists _, _. split; [reflexivity |]. cbn.
  split; [reflexivity |]. split; [apply length_map | reflexivity].
Qed.

End IndexFacts.

(** * Runs on the registry *)

Import fixture.

(** A flat manifest whose image is for amd64 suits a destination for amd64
    and no destination for arm64. *)
Lemma Check_flat_shape_compares_architecture_witness :
  snd (Check world (options app mirror "amd64")) = Returned (true, None) /\
  snd (Check world (options app mirror "arm64")) = Returned (false, None).
Proof.
  split.
  - edestruct (Check_flat_shape_compares_architecture world
                 (options app mirror "amd64"))
      as [Hsame _]; [lazy; reflexivity .. | apply Hsame; reflexivity].
  - edestruct (Check_flat_shape_compares_architecture world
                 (options app mirror "arm64"))
      as [_ Hdiffer]; [lazy; reflexivity .. | apply Hdiffer; discriminate].
Defined.

(** The manifest list is taken for an index by its [manifests] field, and
    [Check] stops behind the fetch. *)
Lemma Check_shape_is_structural_witness :
  exists srcRef src,
    Check world (options multi mirror "s390x")
    = (fetched (srcImage (options multi mirror "s390x")) srcRef src,
       Returned (true, None)).
Proof.
  eexists _, _.
  edestruct (Check_shape_is_structural world (options multi mirror "s390x"))
    as [_ [Hbranch _]]; [lazy; reflexivity .. |].
  apply Hbranch. reflexivity.
Defined.

(** The manifest list suits a destination for s390x, of which it has no
    entry. *)
Lemma Check_index_shape_is_compatible_witness :
  snd (Check world (options multi mirror "s390x")) = Returned (true, None).
Proof.
  change (options multi mirror "s390x")
    with {| srcImage := srcImage (options multi mirror "s390x");
            destImage := destImage (options multi mirror "s390x") |}.
  erewrite Check_index_shape_is_compatible; [reflexivity | lazy; reflexivity ..].
Defined.

(** The image of an OCI layout, whose locator has no ["//"], makes [Check]
    panic. *)
Lemma Check_panics_without_separator_witness :
  snd (Check world (options layout mirror "amd64"))
  = Panicked "index out of range".
Proof.
  erewrite Check_panics_without_separator; [reflexivity | lazy; reflexivity ..].
Defined.

(** A manifest cut short is refused with an error of the decoder. *)
Lemma Check_undecodable_manifest_witness :
  exists err,
    (err = SyntaxError \/ exists e, err = TypeError e) /\
    snd (Check world (options broken mirror "amd64"))
    = Returned (false, Some err).
Proof.
  edestruct (Check_undecodable_manifest world (options broken mirror "amd64"))
    as [err [Hkind Hcheck]];
    [lazy; reflexivity .. | left; lazy; reflexivity |].
  exists err. split; [exact Hkind | now rewrite Hcheck].
Defined.

(** The text of an index with one manifest is read back as an index. *)
Lemma Index_roundtrip_is_index_shape_witness :
  exists entries m,
    Unmarshal world
      (text "{'Manifests':[{'Annotations':{'org.opencontainers.image.ref.name':'app:v1'}}]}")
      zero_ImageManifest = (m, None) /\
    Manifests m = Some entries /\
    List.length entries = 1 /\
    shape m = IndexShape.
Proof.
  apply (Index_roundtrip_is_index_shape world
           [{| Annotations := {| RefName := "app:v1" |} |}]);
    [discriminate | lazy; reflexivity].
Defined.

(** The run that returns [true] returns no error. *)
Lemma Check_true_has_no_error_witness :
  exists b err,
    snd (Check world (options app mirror "amd64")) = Returned (b, err) /\
    (b = true -> err = None).
Proof.
  exists true, None. split; [lazy; reflexivity |].
  apply (Check_true_has_no_error world (options app mirror "amd64")).
  lazy. reflexivity.
Defined.

(** The image opened for the flat manifest is closed by the last call. *)
Lemma Check_handles_witness :
  exists img before r,
    Check world (options app mirror "amd64")
    = ((before ++ [Image_Close_ img])%list, Returned r) /\
    forall i, ~ In (Image_Close_ i) before.
Proof.
  destruct (Check_handles world (options app mirror "amd64")) as [_ Hclosed].
  edestruct (Hclosed ("docker", "reg.example.com/app:v1") "")
    as [before [r Hrun]];
    [lazy; auto 10 | lazy; reflexivity |].
  eexists _, before, r. exact Hrun.
Defined.

(** A copy that succeeds destroys its policy context as its last call. *)
Lemma Copy_releases_policy_context_witness :
  exists used result,
    Copy world (options app mirror "amd64")
    = ((NewPolicyContext_ acceptAnything :: used
        ++ [@Destroy_ handles acceptAnything])%list, Returned result) /\
    forall p, ~ In (Destroy_ p) used.
Proof.
  destruct (Copy_releases_policy_context world (options app mirror "amd64"))
    as [Hacquired _].
  destruct (Hacquired acceptAnything eq_refl) as [used [result [Hrun [Hno _]]]].
  exists used, result. split; [exact Hrun | exact Hno].
Defined.

(** The policy of a copy has one requirement and allows an image that no
    verification would accept. *)
Lemma Copy_policy_accepts_anything_witness :
  In (NewPolicyContext_ acceptAnything)
     (fst (Copy world (options app mirror "amd64"))) /\
  List.length (Default acceptAnything) = 1 /\
  signature.IsRunningImageAllowed (fun _ => false) acceptAnything "docker"
    "reg.example.com/app:v1" ["reg.example.com/app"; "reg.example.com"]
  = true.
Proof.
  assert (Hin : In (NewPolicyContext_ acceptAnything)
                   (fst (Copy world (options app mirror "amd64"))))
    by (lazy; auto).
  destruct (Copy_policy_accepts_anything world (options app mirror "amd64"))
    as [_ [_ Hpolicy]].
  destruct (Hpolicy acceptAnything Hin) as [Hone Hallowed].
  split; [exact Hin | split; [exact Hone | apply Hallowed]].
Defined.

(** * More about [strings.Split] *)

Section SplitFacts.
Import pieces.

Lemma genSplit_skip (sep a post cur : string) :
  strings.genSplit sep (String.length a) cur (a ++ post)
  = strings.genSplit sep 0 cur post.
Proof. induction a as [| c a IH]; simpl; [reflexivity | exact IH]. Qed.

Lemma Join_cons (a : string) (rest : list string) (sep : string) :
  rest <> [] -> Join (a :: rest) sep = a ++ sep ++ Join rest sep.
Proof. destruct rest; [contradiction | reflexivity]. Qed.

Lemma length_append (a b : string) :
  String.length (a ++ b) = String.length a + String.length b.
Proof. induction a as [| c a IH]; simpl; [reflexivity | now rewrite IH]. Qed.

(** Where the text begins with the separator, [genSplit] ends the piece and
    goes on behind the separator. *)
Lemma genSplit_match (sep cur post : string) :
  sep <> "" ->
  strings.genSplit sep 0 cur (sep ++ post)
  = cur :: strings.genSplit sep 0 "" post.
Proof.
  intros Hsep. destruct sep as [| x sep]; [contradiction |].
  cbn [append strings.genSplit].
  assert (Hp : strings.HasPrefix (String x (sep ++ post)) (String x sep) = true)
    by (apply HasPrefix_spec; now exists post).
  rewrite Hp.
  replace (String.length (String x sep) - 1) with (String.length sep)
    by (simpl; lia).
  now rewrite genSplit_skip.
Qed.

Lemma genSplit_Join (sep : string) (n : nat) :
  sep <> "" ->
  forall s cur, String.length s <= n ->
  Join (strings.genSplit sep 0 cur s) sep = cur ++ s.
Proof.
  intros Hsep. induction n as [| n IH]; intros s cur Hn.
  - destruct s; simpl in Hn; [| lia]. simpl. now rewrite append_empty_r.
  - destruct s as [| c s]; [simpl; now rewrite append_empty_r |].
    destruct (strings.HasPrefix (String c s) sep) eqn:Hp.
    + apply HasPrefix_spec in Hp as [post Hp]. rewrite Hp.
      rewrite genSplit_match by assumption.
      rewrite Join_cons by apply genSplit_not_nil.
      rewrite IH; [reflexivity |].
      assert (Hl : String.length (String c s) = String.length (sep ++ post))
        by now rewrite Hp.
      rewrite length_append in Hl. simpl in Hl, Hn.
      destruct sep; [contradiction | simpl in Hl; lia].
    + cbn [strings.genSplit]. rewrite Hp.
      rewrite IH by (simpl in Hn; lia).
      now rewrite append_assoc.
Qed.

(** X1.  Joining the pieces of a split with the separator gives the string
    back. *)
Theorem Join_Split (s sep : string) :
  sep <> "" -> Join (strings.Split s sep) sep = s.
Proof.
  intros Hsep. unfold strings.Split.
  now rewrite (genSplit_Join sep (String.length s) Hsep s "" (le_n _)).
Qed.

Lemma Join_Split_witness :
  Join (strings.Split "docker://reg.example.com//app:v1" "//") "//"
  = "docker://reg.example.com//app:v1".
Proof. apply Join_Split. discriminate. Defined.

Lemma HasPrefix_append (b s sep : string) :
  strings.HasPrefix b sep = true -> strings.HasPrefix (b ++ s) sep = true.
Proof.
  rewrite !HasPrefix_spec. intros [post ->]. exists (post ++ s).
  now rewrite append_assoc.
Qed.

(** A suffix of a string that ends with [c], if not empty, ends with [c]. *)
Lemma suffix_snoc (cur : string) (c : ascii) (a b : string) :
  cur ++ String c "" = a ++ b -> b <> "" ->
  exists b', b = b' ++ String c "" /\ cur = a ++ b'.
Proof.
  revert a; induction cur as [| x cur IH]; intros a Hab Hb.
  - destruct a as [| y a]; simpl in Hab.
    + exists "". now subst b.
    + injection Hab as _ Hab. destruct a; simpl in Hab; [| discriminate].
      now subst b.
  - destruct a as [| y a]; simpl in Hab.
    + exists (String x cur). now subst b.
    + injection Hab as <- Hab. destruct (IH a Hab Hb) as [b' [-> ->]].
      now exists b'.
Qed.

(** While no occurrence of the separator begins in the piece read so far,
    none of the pieces contains the separator. *)
Lemma genSplit_pieces (sep : string) (n : nat) :
  sep <> "" ->
  forall s cur, String.length s <= n ->
  (forall a b, cur = a ++ b -> b <> "" ->
               strings.HasPrefix (b ++ s) sep = false) ->
  Forall (fun piece => strings.Contains piece sep = false)
         (strings.genSplit sep 0 cur s).
Proof.
  intros Hsep.
  assert (Hfree : forall cur s,
             (forall a b, cur = a ++ b -> b <> "" ->
                          strings.HasPrefix (b ++ s) sep = false) ->
             strings.Contains cur sep = false).
  { intros cur s Hinv.
    destruct (strings.Contains cur sep) eqn:Hc; [| reflexivity].
    apply Contains_spec in Hc as [pre [post Hc]].
    assert (Hb : sep ++ post <> "") by (destruct sep; [contradiction | discriminate]).
    specialize (Hinv pre (sep ++ post) Hc Hb).
    rewrite (HasPrefix_append (sep ++ post) s sep) in Hinv; [discriminate |].
    apply HasPrefix_spec. now exists post. }
  induction n as [| n IH]; intros s cur Hn Hinv.
  - destruct s; simpl in Hn; [| lia]. simpl. constructor; [| constructor].
    now apply (Hfree cur "").
  - destruct s as [| c s].
    { simpl. constructor; [| constructor]. now apply (Hfree cur ""). }
    destruct (strings.HasPrefix (String c s) sep) eqn:Hp.
    + pose proof Hp as Hq. apply HasPrefix_spec in Hq as [post Hq]. rewrite Hq.
      rewrite genSplit_match by assumption. constructor.
      * now apply (Hfree cur (String c s)).
      * apply IH.
        -- assert (Hl : String.length (String c s) = String.length (sep ++ post))
             by now rewrite Hq.
           rewrite length_append in Hl. simpl in Hl, Hn.
           destruct sep; [contradiction | simpl in Hl; lia].
        -- intros a b Hab Hb. destruct a; simpl in Hab; [| discriminate].
           subst b. contradiction.
    + cbn [strings.genSplit]. rewrite Hp. apply IH; [simpl in Hn; lia |].
      intros a b Hab Hb.
      destruct (suffix_snoc cur c a b Hab Hb) as [b' [-> Hcur]].
      rewrite append_assoc. cbn [append].
      destruct b' as [| y b']; [exact Hp |].
      apply (Hinv a (String y b') Hcur). discriminate.
Qed.

(** X2.  No piece of a split contains the separator. *)
Theorem Split_pieces_without_separator (s sep : string) :
  sep <> "" ->
  Forall (fun piece => strings.Contains piece sep = false)
         (strings.Split s sep).
Proof.
  intros Hsep. unfold strings.Split.
  apply (genSplit_pieces sep (String.length s) Hsep s "" (le_n _)).
  intros a b Hab Hb. destruct a; simpl in Hab; [| discriminate].
  subst b. contradiction.
Qed.

Lemma Split_pieces_without_separator_witness :
  Forall (fun piece => strings.Contains piece "//" = false)
         (strings.Split "a///b//" "//").
Proof. apply Split_pieces_without_separator. discriminate. Defined.

(** Whether a string begins with [sep] is decided by its first bytes. *)
Lemma HasPrefix_long (sep x y : string) :
  String.length sep <= String.length x ->
  strings.HasPrefix (x ++ y) sep = strings.HasPrefix x sep.
Proof.
  revert x; induction sep as [| p sep IH]; intros x Hl; [reflexivity |].
  destruct x as [| c x]; simpl in Hl; [lia |].
  simpl. rewrite IH by lia. reflexivity.
Qed.

Lemma genSplit_at_first (sep pre rest : string) :
  sep <> "" -> first_at_end pre sep ->
  forall cur,
    strings.genSplit sep 0 cur (pre ++ sep ++ rest)
    = (cur ++ pre) :: strings.genSplit sep 0 "" rest.
Proof.
  intros Hsep. induction pre as [| c pre IH]; intros Hfirst cur.
  - cbn [append]. rewrite (append_empty_r cur). now apply genSplit_match.
  - assert (Hp : strings.HasPrefix (String c pre ++ sep ++ rest) sep = false).
    { rewrite <- append_assoc, HasPrefix_long.
      - apply (Hfirst "" (String c pre)); [reflexivity | discriminate].
      - rewrite length_append. lia. }
    cbn [append strings.genSplit] in Hp |- *. rewrite Hp.
    rewrite IH.
    + now rewrite append_assoc.
    + intros a b Hab Hb. apply (Hfirst (String c a) b); [| exact Hb].
      simpl. now rewrite Hab.
Qed.

(** X3.  A string is split at the first occurrence of the separator: what
    stands before it is the first piece, and the pieces of what stands behind
    it follow. *)
Theorem Split_at_first_separator (sep pre rest : string) :
  sep <> "" -> first_at_end pre sep ->
  strings.Split (pre ++ sep ++ rest) sep = pre :: strings.Split rest sep.
Proof.
  intros Hsep Hfirst. unfold strings.Split.
  now rewrite genSplit_at_first.
Qed.

(** For the separator ["//"]: no occurrence begins inside a string that
    holds none and does not end with a slash. *)
Lemma first_at_end_slashes (pre : string) :
  strings.Contains (pre ++ "/") "//" = false -> first_at_end pre "//".
Proof.
  intros Hc a b Hab Hb.
  destruct (strings.HasPrefix (b ++ "//") "//") eqn:Hp; [| reflexivity].
  exfalso. apply Bool.not_true_iff_false in Hc. apply Hc.
  apply Contains_spec. subst pre.
  destruct b as [| y b]; [contradiction |].
  simpl in Hp. apply andb_true_iff in Hp as [Hy Hp].
  apply Ascii.eqb_eq in Hy. subst y.
  destruct b as [| z b].
  - exists a, "". now rewrite append_assoc.
  - simpl in Hp. rewrite andb_true_r in Hp. apply Ascii.eqb_eq in Hp. subst z.
    exists a, (b ++ "/"). rewrite append_assoc. reflexivity.
Qed.

Lemma Split_at_first_separator_witness :
  strings.Split ("docker:" ++ "//" ++ "reg.example.com//app:v1") "//"
  = "docker:" :: strings.Split "reg.example.com//app:v1" "//".
Proof.
  apply Split_at_first_separator; [discriminate |].
  apply first_at_end_slashes. reflexivity.
Defined.

End SplitFacts.

(** * More about the decoder *)

Section SchemaFacts.
Import json decode schema.

Lemma saveError_None_iff (saved new : option UnmarshalTypeError) :
  saveError saved new = None <-> saved = None /\ new = None.
Proof.
  split; [apply saveError_None | intros [-> ->]; reflexivity].
Qed.

Lemma into_string_fits (v : value) (cur : string) :
  snd (into_string v cur) = None <-> fits_string v = true.
Proof. destruct v; simpl; unfold mismatch; split; congruence. Qed.

Lemma into_int_fits (v : value) (cur : Z) :
  snd (into_int v cur) = None <-> fits_int v = true.
Proof.
  destruct v; simpl; unfold mismatch; try (split; congruence).
  destruct (ParseInt literal); simpl; split; congruence.
Qed.

(** The loop over the members ends without error exactly when it began
    without error and each member that names a field fits the field. *)
Lemma into_fields_fits {S F : Type} (fields : list (string * F))
  (store : F -> value -> S -> S * option UnmarshalTypeError)
  (fits_field : F -> value -> bool) :
  (forall f v cur, snd (store f v cur) = None <-> fits_field f v = true) ->
  forall members cur saved,
    snd (into_fields fields store members cur saved) = None <->
    saved = None /\
    forallb (fun kv =>
               match fieldByName fields (fst kv) with
               | Some f => fits_field f (snd kv)
               | None => true
               end) members = true.
Proof.
  intros Hstore. induction members as [| [key v] rest IH]; intros cur saved.
  - simpl. tauto.
  - cbn [into_fields forallb fst snd].
    destruct (fieldByName fields key) as [f |].
    + specialize (Hstore f v cur). destruct (store f v cur) as [cur' e].
      cbn [snd] in Hstore. rewrite IH, saveError_None_iff, andb_true_iff.
      tauto.
    + rewrite IH. cbn [andb]. tauto.
Qed.

Lemma into_struct_fits {S F : Type} (ty : string) (fields : list (string * F))
  (store : F -> value -> S -> S * option UnmarshalTypeError)
  (fits_field : F -> value -> bool) :
  (forall f v cur, snd (store f v cur) = None <-> fits_field f v = true) ->
  forall v cur,
    snd (into_struct ty fields store v cur) = None <->
    fits_struct fields fits_field v = true.
Proof.
  intros Hstore v cur. destruct v; simpl; unfold mismatch;
    try (split; congruence).
  rewrite (into_fields_fits fields store fits_field Hstore). tauto.
Qed.

Lemma into_elems_fits {S : Type} (zero : S)
  (elem : value -> S -> S * option UnmarshalTypeError)
  (fits_elem : value -> bool) :
  (forall v cur, snd (elem v cur) = None <-> fits_elem v = true) ->
  forall elems cur saved,
    snd (into_elems zero elem elems cur saved) = None <->
    saved = None /\ forallb fits_elem elems = true.
Proof.
  intros Helem. induction elems as [| v rest IH]; intros cur saved.
  - simpl. tauto.
  - cbn [into_elems forallb].
    specialize (Helem v (hd zero cur)).
    destruct (elem v (hd zero cur)) as [x e]. cbn [snd] in Helem.
    specialize (IH (tl cur) (saveError saved e)).
    destruct (into_elems zero elem rest (tl cur) (saveError saved e))
      as [xs saved'].
    cbn [snd] in IH |- *.
    rewrite IH, saveError_None_iff, andb_true_iff. tauto.
Qed.

Lemma into_slice_fits {S : Type} (ty : string) (zero : S)
  (elem : value -> S -> S * option UnmarshalTypeError)
  (fits_elem : value -> bool) :
  (forall v cur, snd (elem v cur) = None <-> fits_elem v = true) ->
  forall v cur,
    snd (into_slice ty zero elem v cur) = None <-> fits_slice fits_elem v = true.
Proof.
  intros Helem v cur. destruct v; simpl; unfold mismatch;
    try (split; congruence).
  pose proof (into_elems_fits zero elem fits_elem Helem elems
                match cur with Some l => l | None => [] end None) as Hel.
  destruct (into_elems zero elem elems _ None) as [xs e].
  cbn [snd] in Hel |- *. rewrite Hel. tauto.
Qed.

Lemma into_PlatformDetails_fits (v : value) (cur : PlatformDetails) :
  snd (into_PlatformDetails v cur) = None <-> fits_PlatformDetails v = true.
Proof.
  apply into_struct_fits. intros f x p.
  destruct f; simpl;
    match goal with
    | |- context [into_string x ?s] =>
        pose proof (into_string_fits x s) as Hs;
        destruct (into_string x s); exact Hs
    end.
Qed.

Lemma into_ManifestEntry_fits (v : value) (cur : ManifestEntry) :
  snd (into_ManifestEntry v cur) = None <-> fits_ManifestEntry v = true.
Proof.
  apply into_struct_fits. intros f x m. destruct f; simpl.
  - pose proof (into_string_fits x (Digest m)) as Hs.
    destruct (into_string x (Digest m)); exact Hs.
  - pose proof (into_string_fits x (entry_MediaType m)) as Hs.
    destruct (into_string x (entry_MediaType m)); exact Hs.
  - pose proof (into_PlatformDetails_fits x (Platform m)) as Hs.
    destruct (into_PlatformDetails x (Platform m)); exact Hs.
  - pose proof (into_int_fits x (Size m)) as Hs.
    destruct (into_int x (Size m)); exact Hs.
Qed.

(** X4.  A document is decoded into an [ImageManifest] without error exactly
    when it fits the types: it is null or an object in which [manifests] is
    null or an array of entries that fit, [mediaType] is null or a string, and
    [schemaVersion] is null or an integer of 64 bits; this does not depend on
    what the target held. *)
Theorem into_ImageManifest_fits (doc : value) (cur : ImageManifest) :
  snd (into_ImageManifest doc cur) = None <-> fits_ImageManifest doc = true.
Proof.
  apply into_struct_fits. intros f x m. destruct f; simpl.
  - pose proof (into_slice_fits "[]images.ManifestEntry" zero_ManifestEntry
                  into_ManifestEntry fits_ManifestEntry
                  into_ManifestEntry_fits x (Manifests m)) as Hs.
    destruct (into_slice _ _ _ x (Manifests m)); exact Hs.
  - pose proof (into_string_fits x (MediaType m)) as Hs.
    destruct (into_string x (MediaType m)); exact Hs.
  - pose proof (into_int_fits x (SchemaVersion m)) as Hs.
    destruct (into_int x (SchemaVersion m)); exact Hs.
Qed.

(** X5.  Members that name no field of [ImageManifest] are not looked at: the
    manifest decoded, and the error, are those of the object without them. *)
Theorem into_ImageManifest_known (members : list (string * value))
  (cur : ImageManifest) :
  into_ImageManifest (Object members) cur
  = into_ImageManifest (Object (known members)) cur.
Proof.
  unfold into_ImageManifest, into_struct, known.
  generalize (@None UnmarshalTypeError) as saved. revert cur.
  induction members as [| [key v] rest IH]; intros cur saved;
    [reflexivity |].
  cbn [filter into_fields fst].
  destruct (fieldByName ImageManifest_fields key) as [f |] eqn:Hf.
  - cbn [into_fields]. rewrite Hf.
    destruct (store_ImageManifest f v cur) as [cur' e]. apply IH.
  - apply IH.
Qed.

(** X6.  A member names a field of [ImageManifest] exactly when its name and
    the field's tag are the same under case folding. *)
Theorem fieldByName_fold (key : string) (f : ImageManifest_field) :
  fieldByName ImageManifest_fields key = Some f <->
  foldName key = foldName (tag f).
Proof.
  unfold fieldByName, ImageManifest_fields. cbn [find fst snd].
  destruct (String.eqb_spec "manifests" key) as [<- | _];
    [destruct f; split; (discriminate || reflexivity) |].
  destruct (String.eqb_spec "mediaType" key) as [<- | _];
    [destruct f; split; (discriminate || reflexivity) |].
  destruct (String.eqb_spec "schemaVersion" key) as [<- | _];
    [destruct f; split; (discriminate || reflexivity) |].
  change (foldName "manifests") with "MANIFESTS".
  change (foldName "mediaType") with "MEDIATYPE".
  change (foldName "schemaVersion") with "SCHEMAVERSION".
  destruct (String.eqb_spec "MANIFESTS" (foldName key)) as [<- | H1];
    [destruct f; split; (discriminate || reflexivity) |].
  destruct (String.eqb_spec "MEDIATYPE" (foldName key)) as [<- | H2];
    [destruct f; split; (discriminate || reflexivity) |].
  destruct (String.eqb_spec "SCHEMAVERSION" (foldName key)) as [<- | H3];
    [destruct f; split; (discriminate || reflexivity) |].
  split; [discriminate |]. intros Hk. destruct f.
  - change (foldName (tag fManifests)) with "MANIFESTS" in Hk. congruence.
  - change (foldName (tag fMediaType)) with "MEDIATYPE" in Hk. congruence.
  - change (foldName (tag fSchemaVersion)) with "SCHEMAVERSION" in Hk.
    congruence.
Qed.

End SchemaFacts.

(** * More about [Check] *)

Section CheckMore.
Context {H : Handles} (W : World H).
Implicit Type c : CopyImageOptions H.
Implicit Type source : srcImageOptions H.

(** The ways [Check] can end before it has the manifest. *)
Lemma Check_unfetched c :
  let parse := ParseImageName_ (src_imageName (srcImage c)) in
  match ParseImageName W (src_imageName (srcImage c)) with
  | Err e => Check W c = ([parse], Returned (false, Some (LibraryError e)))
  | Ok srcRef =>
      let open := NewImageSource_ srcRef (src_systemContext (srcImage c)) in
      match NewImageSource W srcRef (src_systemContext (srcImage c)) with
      | Err e =>
          Check W c = ([parse; open], Returned (false, Some (LibraryError e)))
      | Ok src =>
          match GetManifest W src with
          | Err e =>
              Check W c = (fetched (srcImage c) srcRef src,
                           Returned (false, Some (LibraryError e)))
          | Ok _ => True
          end
      end
  end.
Proof.
  cbn zeta. unfold fetched.
  destruct (ParseImageName W _) as [srcRef | e] eqn:Hp;
    [| unfold_go; answer; reflexivity].
  destruct (NewImageSource W srcRef _) as [src | e] eqn:Hs;
    [| unfold_go; answer; reflexivity].
  destruct (GetManifest W src) as [got | e] eqn:Hg;
    [exact I | unfold_go; answer; reflexivity].
Qed.

(** X7.  When the locator does not parse, the image source cannot be opened or
    the manifest cannot be fetched, [Check] returns [false] with that very
    error and makes no further call. *)
Theorem Check_fetch_failure c :
  (forall e,
     ParseImageName W (src_imageName (srcImage c)) = Err e ->
     Check W c = ([ParseImageName_ (src_imageName (srcImage c))],
                  Returned (false, Some (LibraryError e)))) /\
  (forall srcRef e,
     ParseImageName W (src_imageName (srcImage c)) = Ok srcRef ->
     NewImageSource W srcRef (src_systemContext (srcImage c)) = Err e ->
     Check W c = ([ParseImageName_ (src_imageName (srcImage c));
                   NewImageSource_ srcRef (src_systemContext (srcImage c))],
                  Returned (false, Some (LibraryError e)))) /\
  (forall srcRef src e,
     ParseImageName W (src_imageName (srcImage c)) = Ok srcRef ->
     NewImageSource W srcRef (src_systemContext (srcImage c)) = Ok src ->
     GetManifest W src = Err e ->
     Check W c = (fetched (srcImage c) srcRef src,
                  Returned (false, Some (LibraryError e)))).
Proof.
  pose proof (Check_unfetched c) as Hpath. cbn zeta in Hpath.
  split; [| split].
  - intros e Hp. now rewrite Hp in Hpath.
  - intros srcRef e Hp Hs. now rewrite Hp, Hs in Hpath.
  - intros srcRef src e Hp Hs Hg. now rewrite Hp, Hs, Hg in Hpath.
Qed.

(** X8.  On the flat-shape branch: when the derived reference does not parse
    or the image cannot be opened, [Check] returns [false] with that error and
    closes nothing; when the image cannot be inspected, [Check] returns
    [false] with that error and has closed the image. *)
Theorem Check_flat_failure c srcRef src data mime m piece :
  ParseImageName W (src_imageName (srcImage c)) = Ok srcRef ->
  NewImageSource W srcRef (src_systemContext (srcImage c)) = Ok src ->
  GetManifest W src = Ok (data, mime) ->
  Unmarshal W data zero_ImageManifest = (m, None) ->
  Manifests m = None ->
  nth_error (strings.Split (src_imageName (srcImage c)) "//") 1 = Some piece ->
  (forall e,
     ParseReference W ("//" ++ piece) = Err e ->
     Check W c = ((fetched (srcImage c) srcRef src
                   ++ [ParseReference_ ("//" ++ piece)])%list,
                  Returned (false, Some (LibraryError e)))) /\
  (forall ref e,
     ParseReference W ("//" ++ piece) = Ok ref ->
     NewImage W ref (src_systemContext (srcImage c)) = Err e ->
     Check W c = ((fetched (srcImage c) srcRef src
                   ++ [ParseReference_ ("//" ++ piece);
                       NewImage_ ref (src_systemContext (srcImage c))])%list,
                  Returned (false, Some (LibraryError e)))) /\
  (forall ref img e,
     ParseReference W ("//" ++ piece) = Ok ref ->
     NewImage W ref (src_systemContext (srcImage c)) = Ok img ->
     Inspect W img = Err e ->
     Check W c = ((fetched (srcImage c) srcRef src
                   ++ inspected (srcImage c) piece ref img)%list,
                  Returned (false, Some (LibraryError e)))).
Proof.
  intros Hp Hs Hg Hu Hm Hsplit.
  rewrite (Check_fetched W c srcRef src data mime Hp Hs Hg), Hu, Hm, Hsplit.
  cbn zeta. repeat split; intros; answer; reflexivity.
Qed.

(** X9.  On the flat-shape branch the reference that is parsed, by the docker
    transport, is ["//"] and what stands in the locator between its first
    ["//"] and its next one, or its end when there is no other: what stands
    before the first ["//"] plays no part, and what stands behind a second one
    is dropped. *)
Theorem Check_derives_reference c srcRef src data mime m pre rest :
  src_imageName (srcImage c) = pre ++ "//" ++ rest ->
  pieces.first_at_end pre "//" ->
  ParseImageName W (src_imageName (srcImage c)) = Ok srcRef ->
  NewImageSource W srcRef (src_systemContext (srcImage c)) = Ok src ->
  GetManifest W src = Ok (data, mime) ->
  Unmarshal W data zero_ImageManifest = (m, None) ->
  Manifests m = None ->
  exists piece more,
    strings.Split rest "//" = piece :: more /\
    (strings.Contains rest "//" = false -> piece = rest) /\
    nth_error (fst (Check W c)) 3 = Some (ParseReference_ ("//" ++ piece)).
Proof.
  intros Hname Hfirst Hp Hs Hg Hu Hm.
  rewrite (Check_fetched W c srcRef src data mime Hp Hs Hg), Hu, Hm.
  rewrite Hname. unfold strings.Split.
  rewrite genSplit_at_first by (assumption || discriminate).
  destruct (strings.genSplit "//" 0 "" rest) as [| piece more] eqn:Hsplit.
  { exfalso. revert Hsplit. apply genSplit_not_nil. }
  exists piece, more. split; [reflexivity |]. split.
  - intros Hc. rewrite (genSplit_without_separator _ _ _ Hc) in Hsplit.
    now injection Hsplit.
  - cbn [nth_error]. cbn zeta. unfold fetched, inspected.
    destruct (ParseReference W ("//" ++ piece)) as [ref | e];
      [| reflexivity].
    destruct (NewImage W ref _); reflexivity.
Qed.

(** X10.  [Check] answers [(true, nil)] in two cases only: the fetched
    manifest decodes to the index shape; or it decodes to the flat shape, the
    locator has a second piece, the image behind it is opened and inspected,
    and its architecture is the destination's. *)
Theorem Check_true_iff c :
  snd (Check W c) = Returned (true, None) <->
  exists srcRef src data mime m,
    ParseImageName W (src_imageName (srcImage c)) = Ok srcRef /\
    NewImageSource W srcRef (src_systemContext (srcImage c)) = Ok src /\
    GetManifest W src = Ok (data, mime) /\
    Unmarshal W data zero_ImageManifest = (m, None) /\
    (Manifests m <> None \/
     exists piece ref img info,
       Manifests m = None /\
       nth_error (strings.Split (src_imageName (srcImage c)) "//") 1
         = Some piece /\
       ParseReference W ("//" ++ piece) = Ok ref /\
       NewImage W ref (src_systemContext (srcImage c)) = Ok img /\
       Inspect W img = Ok info /\
       inspect_Architecture info = arch (dockerImage (destImage c))).
Proof.
  split.
  - destruct (ParseImageName W (src_imageName (srcImage c)))
      as [srcRef | e] eqn:Hp.
    2: { pose proof (Check_unfetched c) as Hpath. cbn zeta in Hpath.
         rewrite Hp in Hpath. rewrite Hpath. discriminate. }
    destruct (NewImageSource W srcRef (src_systemContext (srcImage c)))
      as [src | e] eqn:Hs.
    2: { pose proof (Check_unfetched c) as Hpath. cbn zeta in Hpath.
         rewrite Hp, Hs in Hpath. rewrite Hpath. discriminate. }
    destruct (GetManifest W src) as [[data mime] | e] eqn:Hg.
    2: { pose proof (Check_unfetched c) as Hpath. cbn zeta in Hpath.
         rewrite Hp, Hs, Hg in Hpath. rewrite Hpath. discriminate. }
    rewrite (Check_fetched W c srcRef src data mime Hp Hs Hg).
    destruct (Unmarshal W data zero_ImageManifest) as [m [err |]] eqn:Hu;
      [discriminate |].
    intros Hrun. exists srcRef, src, data, mime, m.
    repeat (split; [reflexivity || assumption |]).
    destruct (Manifests m) as [entries |] eqn:Hm; [left; discriminate | right].
    destruct (nth_error _ 1) as [piece |] eqn:Hsplit; [| discriminate].
    cbn zeta in Hrun.
    destruct (ParseReference W ("//" ++ piece)) as [ref | e] eqn:Hr;
      [| discriminate].
    destruct (NewImage W ref _) as [img | e] eqn:Hi; [| discriminate].
    cbn [snd] in Hrun.
    destruct (Inspect W img) as [info | e] eqn:Hin; [| discriminate].
    exists piece, ref, img, info.
    repeat (split; [reflexivity || assumption |]).
    apply String.eqb_eq. now injection Hrun.
  - intros [srcRef [src [data [mime [m [Hp [Hs [Hg [Hu Hcase]]]]]]]]].
    rewrite (Check_fetched W c srcRef src data mime Hp Hs Hg), Hu.
    destruct Hcase as [Hindex | [piece [ref [img [info
                        [Hm [Hsplit [Hr [Hi [Hin Harch]]]]]]]]]].
    + destruct (Manifests m); [reflexivity | contradiction].
    + rewrite Hm, Hsplit. cbn zeta. rewrite Hr, Hi, Hin. cbn [snd].
      apply String.eqb_eq in Harch. now rewrite Harch.
Qed.


(** X12.  Of the destination, [Check] reads the target architecture and
    nothing else: it does the same for two destinations of the same
    architecture, whatever their locators and contexts are. *)
Theorem Check_reads_arch_of_destination source
  (dest dest' : destImageOptions H) :
  arch (dockerImage dest) = arch (dockerImage dest') ->
  Check W {| srcImage := source; destImage := dest |}
  = Check W {| srcImage := source; destImage := dest' |}.
Proof.
  intros Harch. unfold Check. cbn [srcImage destImage]. now rewrite Harch.
Qed.

End CheckMore.

(** * More about [Copy] *)

Section CopyMore.
Context {H : Handles} (W : World H).
Implicit Type c : CopyImageOptions H.

(** X13.  What [Copy] hands to [copy.Image]: the reference parsed from the
    destination's locator as the destination, the one parsed from the source's
    locator as the source, each with the context of its own side, and the
    standard output for the report. *)
Theorem Copy_wiring c pc destRef srcRef out srcCtx destCtx :
  In (copy_Image_ pc destRef srcRef out srcCtx destCtx) (fst (Copy W c)) ->
  ParseImageName W (src_imageName (srcImage c)) = Ok srcRef /\
  ParseImageName W (dest_imageName (destImage c)) = Ok destRef /\
  out = os_Stdout /\
  srcCtx = src_systemContext (srcImage c) /\
  destCtx = dest_systemContext (destImage c).
Proof.
  rewrite Copy_paths. cbn zeta.
  destruct (NewPolicyContext W _) as [pc' | e];
    [destruct (ParseImageName W (src_imageName _)) as [s | e];
     [destruct (ParseImageName W (dest_imageName _)) as [d | e] |] |];
    cbn [fst In]; intros Hin;
    repeat (destruct Hin as [Hin | Hin]; try discriminate Hin);
    try contradiction.
  destruct out. inversion Hin; subst. repeat split; reflexivity.
Qed.


End CopyMore.

(** * More about the index model *)

Section IndexMore.
Import json decode.

(** X15.  An index written as JSON and read back into an [ImageManifest]
    decodes without error; [Manifests] is nil exactly when the index has a nil
    slice, and holds one entry for each manifest of the index otherwise, each
    of them empty: the annotations are dropped. *)
Theorem Index_read_back (idx : Index) :
  into_ImageManifest (encode.of_Index idx) zero_ImageManifest
  = ({| Manifests := option_map (map (fun _ => zero_ManifestEntry))
                       (Index_Manifests idx);
        MediaType := "";
        SchemaVersion := 0 |}, None).
Proof.
  unfold encode.of_Index, into_ImageManifest, into_struct.
  cbn [into_fields].
  change (fieldByName ImageManifest_fields "Manifests") with (Some fManifests).
  cbn iota. unfold store_ImageManifest, into_slice.
  cbn [Manifests zero_ImageManifest].
  destruct (Index_Manifests idx) as [ms |]; [| reflexivity].
  rewrite into_elems_of_Manifests. reflexivity.
Qed.

End IndexMore.

(** * More runs on the registry *)

(** A locator without transport is refused at once; a registry out of reach
    and a registry without the manifest end the check where they fail. *)
Lemma Check_fetch_failure_witness :
  snd (Check world (options "reg.example.com/app" mirror "amd64"))
    = Returned (false, Some (@LibraryError handles
        "invalid image name, expected colon-separated transport:reference"))
  /\
  snd (Check outage.unreachable (options app mirror "amd64"))
    = Returned (false, Some (@LibraryError handles "connection refused")) /\
  snd (Check outage.no_manifest (options app mirror "amd64"))
    = Returned (false, Some (@LibraryError handles "manifest unknown")).
Proof.
  split; [| split].
  - destruct (Check_fetch_failure world
                (options "reg.example.com/app" mirror "amd64")) as [Hparse _].
    erewrite Hparse; [reflexivity | lazy; reflexivity].
  - destruct (Check_fetch_failure outage.unreachable
                (options app mirror "amd64")) as [_ [Hopen _]].
    erewrite Hopen; [reflexivity | lazy; reflexivity ..].
  - destruct (Check_fetch_failure outage.no_manifest
                (options app mirror "amd64")) as [_ [_ Hfetch]].
    erewrite Hfetch; [reflexivity | lazy; reflexivity ..].
Defined.

(** An image that may not be opened is not closed; an image whose
    configuration cannot be read is closed all the same. *)
Lemma Check_flat_failure_witness :
  (exists calls,
     Check outage.locked (options app mirror "amd64")
     = (calls, Returned (false, Some (@LibraryError handles "unauthorized"))) /\
     forall img, ~ In (Image_Close_ img) calls) /\
  (exists calls img,
     Check outage.unreadable (options app mirror "amd64")
     = ((calls ++ [Image_Close_ img])%list,
        Returned (false, Some (@LibraryError handles "blob unknown")))).
Proof.
  split.
  - edestruct (Check_flat_failure outage.locked (options app mirror "amd64"))
      as [_ [Hopen _]]; [lazy; reflexivity .. |].
    eexists. split.
    + eapply Hopen; lazy; reflexivity.
    + clear Hopen. intros img. unfold fetched. cbn [List.app In].
      intuition discriminate.
  - edestruct (Check_flat_failure outage.unreadable
                 (options app mirror "amd64"))
      as [_ [_ Hinspect]]; [lazy; reflexivity .. |].
    eexists (_ :: _ :: _ :: _ :: _ :: _ :: nil), _.
    eapply Hinspect; lazy; reflexivity.
Defined.

(** The reference derived from the docker locator is what follows its
    ["//"]. *)
Lemma Check_derives_reference_witness :
  nth_error (fst (Check world (options app mirror "amd64"))) 3
  = Some (ParseReference_ "//reg.example.com/app:v1").
Proof.
  edestruct (Check_derives_reference world (options app mirror "amd64"))
    with (pre := "docker:") (rest := "reg.example.com/app:v1")
    as [piece [more [Hsplit [Hrest Hcall]]]];
    [ reflexivity
    | apply first_at_end_slashes; reflexivity
    | lazy; reflexivity .. |].
  rewrite Hcall, (Hrest eq_refl). reflexivity.
Defined.

(** Two destinations for amd64 are checked alike, though one of them has a
    locator that does not parse. *)
Lemma Check_reads_arch_of_destination_witness :
  Check world (options app mirror "amd64")
  = Check world (options app "nowhere" "amd64").
Proof.
  apply (Check_reads_arch_of_destination world
           (srcImage (options app mirror "amd64"))
           (destImage (options app mirror "amd64"))
           (destImage (options app "nowhere" "amd64"))).
  reflexivity.
Defined.

(** The copy goes from the source to the mirror. *)
Lemma Copy_wiring_witness :
  ParseImageName world app = Ok ("docker", "reg.example.com/app:v1") /\
  ParseImageName world mirror = Ok ("docker", "mirror.local/app:v1").
Proof.
  destruct (Copy_wiring world (options app mirror "amd64") acceptAnything
              ("docker", "mirror.local/app:v1")
              ("docker", "reg.example.com/app:v1") os_Stdout "" "amd64")
    as [Hsrc [Hdest _]]; [lazy; auto 10 |].
  split; [exact Hsrc | exact Hdest].
Defined.


(** * The generated deep copies *)

Section MemoryFacts.
Import v1alpha1.
Context {A : Type}.
Implicit Type st : store A.

Lemma backing_old st (more : store A) (l : nat) :
  l < List.length st -> backing (st ++ more)%list l = backing st l.
Proof. intros Hl. unfold backing. now apply app_nth1. Qed.

Lemma backing_new st (arr : list A) :
  backing (st ++ [arr])%list (List.length st) = arr.
Proof. unfold backing. now rewrite nth_middle. Qed.

Lemma setArray_length st (l : nat) (arr : list A) :
  l < List.length st -> List.length (setArray st l arr) = List.length st.
Proof.
  intros Hl. unfold setArray.
  rewrite length_app, length_firstn. cbn [List.length].
  rewrite length_skipn. lia.
Qed.

Lemma setArray_same st (l : nat) (arr : list A) :
  l < List.length st -> backing (setArray st l arr) l = arr.
Proof.
  intros Hl. unfold backing, setArray.
  rewrite app_nth2; rewrite length_firstn; [| lia].
  now replace (l - Nat.min l (List.length st)) with 0 by lia.
Qed.

Lemma setArray_other st (l l' : nat) (arr : list A) :
  l < List.length st -> l' <> l ->
  backing (setArray st l arr) l' = backing st l'.
Proof.
  intros Hl Hne. unfold backing, setArray.
  destruct (skipn l st) as [| a rest] eqn:Hsk.
  { apply (f_equal (@List.length _)) in Hsk.
    rewrite length_skipn in Hsk. simpl in Hsk. lia. }
  assert (Hrest : skipn (S l) st = rest).
  { change (S l) with (1 + l). now rewrite <- skipn_skipn, Hsk. }
  rewrite Hrest.
  replace (nth l' st []) with (nth l' (firstn l st ++ a :: rest)%list [])
    by (now rewrite <- Hsk, firstn_skipn).
  assert (Hfirst : List.length (firstn l st) = l)
    by (rewrite length_firstn; lia).
  destruct (Nat.lt_ge_cases l' l) as [Hlt | Hge].
  - rewrite !app_nth1 by lia. reflexivity.
  - rewrite !app_nth2 by lia. rewrite Hfirst.
    replace (l' - l) with (S (l' - S l)) by lia. reflexivity.
Qed.

Lemma grows_refl st : grows st st.
Proof. split; [lia | reflexivity]. Qed.

Lemma grows_trans st1 st2 st3 :
  grows st1 st2 -> grows st2 st3 -> grows st1 st3.
Proof.
  intros [Hl1 Hb1] [Hl2 Hb2]. split; [lia |].
  intros l Hl. rewrite Hb2 by lia. now apply Hb1.
Qed.

(** A slice within a store shows the same elements in a store that has
    grown, and lies within it. *)
Lemma grows_elements st st' (s : option slice) :
  grows st st' -> inBounds st s ->
  elements st' s = elements st s /\ inBounds st' s.
Proof.
  intros [Hl Hb] Hin. destruct s as [s |]; [| split; [reflexivity | exact I]].
  destruct Hin as [Ha Ho]. unfold elements, view, inBounds.
  rewrite (Hb _ Ha). repeat split; [lia | exact Ho].
Qed.

Lemma view_length st (s : slice) :
  inBounds st (Some s) -> List.length (view st s) = len s.
Proof.
  intros [_ Ho]. unfold view. rewrite length_firstn, length_skipn. lia.
Qed.

(** The copy of a slice: the same elements, nil exactly for nil, in an array
    of its own that the store did not have, which it fills; and the store
    has grown. *)
Lemma copySlice_spec (zero : A) st st' (s out : option slice) :
  inBounds st s ->
  copySlice zero st s = (st', out) ->
  elements st' out = elements st s /\
  (out = None <-> s = None) /\
  fresh (List.length st) st' out /\
  inBounds st' out /\
  grows st st' /\
  (forall o, out = Some o -> array o = List.length st /\
                            List.length st' = S (List.length st)).
Proof.
  intros Hin Hcopy. destruct s as [s |]; cbn [copySlice make] in Hcopy.
  2: { injection Hcopy as <- <-.
       repeat split; try exact I; try lia; try discriminate;
         try reflexivity; intros; discriminate. }
  injection Hcopy as <- <-.
  pose proof (view_length st s Hin) as Hlen.
  destruct Hin as [Ha Ho].
  set (st1 := (st ++ [repeat zero (len s)])%list).
  set (o := {| array := List.length st; offset := 0; len := len s |}).
  assert (Hnew : List.length st < List.length st1)
    by (unfold st1; rewrite length_app; simpl; lia).
  assert (Hview : view st1 s = view st s).
  { unfold view, st1. now rewrite backing_old. }
  assert (Harr : backing (copy st1 o s) (List.length st) = view st s).
  { unfold copy. cbn [array offset len o]. rewrite setArray_same by exact Hnew.
    cbn [firstn app Nat.add]. rewrite Nat.min_id, Hview.
    unfold st1. rewrite backing_new.
    rewrite firstn_all2 by lia.
    rewrite skipn_all2 by (rewrite repeat_length; lia).
    apply app_nil_r. }
  assert (Hsize : List.length (copy st1 o s) = S (List.length st)).
  { unfold copy. cbn [array o]. rewrite setArray_length by exact Hnew.
    unfold st1. rewrite length_app. simpl. lia. }
  repeat split.
  - unfold elements at 1, view. cbn [array offset len o]. rewrite Harr.
    cbn [skipn]. change (elements st (Some s)) with (view st s).
    apply firstn_all2. lia.
  - discriminate.
  - discriminate.
  - cbn [array o]. lia.
  - cbn [array len o]. rewrite Harr. now rewrite Hlen.
  - cbn [array o]. lia.
  - cbn [array offset len o]. rewrite Harr, Hlen. lia.
  - lia.
  - intros l Hl. unfold copy. cbn [array o].
    rewrite setArray_other by lia. unfold st1. now apply backing_old.
  - match goal with E : Some _ = Some _ |- _ => now injection E as <- end.
  - exact Hsize.
Qed.

End MemoryFacts.

Section MemoryFacts2.
Import v1alpha1.
Context {A : Type}.
Implicit Type st : store A.

Lemma grows_fresh st st' (n : nat) (s : option slice) :
  grows st st' -> inBounds st s -> fresh n st s -> fresh n st' s.
Proof.
  intros [_ Hb] Hin Hf. destruct s as [s |]; [| exact I].
  destruct Hin as [Ha _]. destruct Hf as [Hn [Ho Hl]].
  unfold fresh. rewrite (Hb _ Ha). auto.
Qed.

(** Writing into a slice changes nothing in another array. *)
Lemma set_elsewhere st (s : slice) (i : nat) (x : A) (t : option slice) :
  array s < List.length st ->
  (forall o, t = Some o -> array o <> array s) ->
  elements (set st s i x) t = elements st t.
Proof.
  intros Hs Hne. destruct t as [o |]; [| reflexivity].
  unfold elements, view, set.
  rewrite setArray_other; [reflexivity | exact Hs | now apply Hne].
Qed.

End MemoryFacts2.

Section DeepCopyFacts.
Import v1alpha1.
Context {K : Kinds} (D : @Copies K).
Implicit Type h : @Heap K.

Lemma extends_refl h : extends h h.
Proof.
  repeat split; try apply grows_refl; try lia.
  exists []. now rewrite app_nil_r.
Qed.

Lemma extends_trans h1 h2 h3 : extends h1 h2 -> extends h2 h3 -> extends h1 h3.
Proof.
  intros [Hs1 [[m1 Hb1] [Hr1 Ht1]]] [Hs2 [[m2 Hb2] [Hr2 Ht2]]].
  split; [eapply grows_trans; eassumption |].
  split; [exists (m1 ++ m2)%list; now rewrite Hb2, Hb1, app_assoc |].
  split; eapply grows_trans; eassumption.
Qed.

(** A pointer into the cells points to the same bool in a memory that
    extends the one it was taken in. *)
Lemma extends_deref h h' (p : option nat) :
  extends h h' ->
  match p with Some p => p < List.length (boolCells h) | None => True end ->
  deref h' p = deref h p.
Proof.
  intros [_ [[more Hb] _]] Hp. destruct p as [p |]; [| reflexivity].
  unfold deref. rewrite Hb. now apply nth_error_app1.
Qed.

Lemma extends_TaskSpec h h' (v : TaskSpec) :
  extends h h' -> TaskSpec_inBounds h v ->
  TaskSpec_strings h' v = TaskSpec_strings h v /\
  deref h' (IgnoreError v) = deref h (IgnoreError v) /\
  TaskSpec_inBounds h' v.
Proof.
  intros Hext [Hh [Hw [Hf Hp]]]. pose proof Hext as [Hs [[more Hb] _]].
  destruct (grows_elements _ _ _ Hs Hh) as [Eh Ih].
  destruct (grows_elements _ _ _ Hs Hw) as [Ew Iw].
  destruct (grows_elements _ _ _ Hs Hf) as [Ef If].
  unfold TaskSpec_strings. rewrite Eh, Ew, Ef.
  split; [reflexivity |]. split; [now apply extends_deref |].
  repeat split; try assumption.
  destruct (IgnoreError v); [| exact I]. rewrite Hb, length_app. lia.
Qed.

Lemma copyStrings_spec h h' (s out : option slice) :
  inBounds (stringArrays h) s ->
  copyStrings h s = (h', out) ->
  elements (stringArrays h') out = elements (stringArrays h) s /\
  (out = None <-> s = None) /\
  fresh (List.length (stringArrays h)) (stringArrays h') out /\
  inBounds (stringArrays h') out /\
  extends h h' /\
  boolCells h' = boolCells h /\
  (forall o, out = Some o ->
     array o = List.length (stringArrays h) /\
     List.length (stringArrays h') = S (List.length (stringArrays h))).
Proof.
  intros Hin Hcopy. unfold copyStrings in Hcopy.
  destruct (copySlice "" (stringArrays h) s) as [st o] eqn:Hslice.
  injection Hcopy as <- <-.
  destruct (copySlice_spec "" _ _ _ _ Hin Hslice)
    as [He [Hnil [Hf [Hi [Hg Ho]]]]].
  cbn [stringArrays boolCells with_stringArrays].
  repeat (split; [assumption || reflexivity |]).
  split; [| split; [reflexivity | exact Ho]].
  split; [exact Hg |]. cbn.
  split; [exists []; now rewrite app_nil_r |].
  split; apply grows_refl.
Qed.

Lemma copyBool_spec h h' (p out : option nat) :
  match p with Some p => p < List.length (boolCells h) | None => True end ->
  copyBool h p = (h', out) ->
  deref h' out = deref h p /\
  (out = None <-> p = None) /\
  (forall q, out = Some q -> List.length (boolCells h) <= q) /\
  match out with Some q => q < List.length (boolCells h') | None => True end /\
  extends h h' /\
  stringArrays h' = stringArrays h.
Proof.
  intros Hp Hcopy. destruct p as [p |]; cbn [copyBool] in Hcopy;
    injection Hcopy as <- <-.
  - cbn [deref boolCells stringArrays with_boolCells].
    split.
    { rewrite nth_error_app2 by lia. rewrite Nat.sub_diag. cbn [nth_error].
      symmetry. now apply nth_error_nth'. }
    split; [split; discriminate |].
    split; [intros q Hq; injection Hq as <-; lia |].
    split; [rewrite length_app; simpl; lia |].
    split; [| reflexivity].
    split; [apply grows_refl |]. cbn.
    split; [now eexists |]. split; apply grows_refl.
  - repeat split; try exact I; try reflexivity; try discriminate;
      try apply grows_refl; try (intros; discriminate).
    exists []. now rewrite app_nil_r.
Qed.

Lemma copyStrings_others h h' (s out : option slice) :
  copyStrings h s = (h', out) ->
  hostResultArrays h' = hostResultArrays h /\ taskArrays h' = taskArrays h.
Proof.
  unfold copyStrings. destruct (copySlice "" (stringArrays h) s).
  intros E. injection E as <- _. split; reflexivity.
Qed.

Lemma copyBool_others h h' (p out : option nat) :
  copyBool h p = (h', out) ->
  hostResultArrays h' = hostResultArrays h /\ taskArrays h' = taskArrays h.
Proof.
  destruct p; cbn [copyBool]; intros E; injection E as <- _;
    split; reflexivity.
Qed.

(** What [TaskSpec.DeepCopyInto] leaves: the steps taken one by one. *)
Lemma TaskSpec_DeepCopyInto_facts h h' (v out : TaskSpec) :
  TaskSpec_inBounds h v ->
  TaskSpec_DeepCopyInto D h v = (h', out) ->
  extends h h' /\
  TaskSpec_inBounds h' out /\
  TaskSpec_strings h' out = TaskSpec_strings h v /\
  deref h' (IgnoreError out) = deref h (IgnoreError v) /\
  ((Hosts out = None <-> Hosts v = None) /\
   (When out = None <-> When v = None) /\
   (FailedWhen out = None <-> FailedWhen v = None) /\
   (IgnoreError out = None <-> IgnoreError v = None)) /\
  (fresh (List.length (stringArrays h)) (stringArrays h') (Hosts out) /\
   fresh (List.length (stringArrays h)) (stringArrays h') (When out) /\
   fresh (List.length (stringArrays h)) (stringArrays h') (FailedWhen out) /\
   (forall q, IgnoreError out = Some q -> List.length (boolCells h) <= q)) /\
  ((forall a b, Hosts out = Some a -> When out = Some b ->
                array a <> array b) /\
   (forall a b, Hosts out = Some a -> FailedWhen out = Some b ->
                array a <> array b) /\
   (forall a b, When out = Some a -> FailedWhen out = Some b ->
                array a <> array b)) /\
  (hostResultArrays h' = hostResultArrays h /\ taskArrays h' = taskArrays h).
Proof.
  intros [Hh [Hw [Hf Hp]]] Hcopy. unfold TaskSpec_DeepCopyInto in Hcopy.
  destruct (copyStrings h (Hosts v)) as [h1 hosts] eqn:E1.
  destruct (copyBool h1 (IgnoreError v)) as [h2 ignoreError] eqn:E2.
  destruct (copyStrings h2 (When v)) as [h3 when] eqn:E3.
  destruct (copyStrings h3 (FailedWhen v)) as [h4 failedWhen] eqn:E4.
  injection Hcopy as <- <-.
  cbn [Hosts When FailedWhen IgnoreError TaskSpec_strings].
  destruct (copyStrings_spec h h1 _ _ Hh E1)
    as [Ee1 [En1 [Ef1 [Ei1 [Ex1 [Eb1 Eo1]]]]]].
  destruct (copyStrings_others _ _ _ _ E1) as [Er1 Et1].
  assert (Hp1 : match IgnoreError v with
                | Some p => p < List.length (boolCells h1)
                | None => True
                end) by now rewrite Eb1.
  destruct (copyBool_spec h1 h2 _ _ Hp1 E2)
    as [Ee2 [En2 [Ef2 [Ei2 [Ex2 Es2]]]]].
  destruct (copyBool_others _ _ _ _ E2) as [Er2 Et2].
  pose proof Ex1 as [Hg1 _]. pose proof Ex2 as [Hg2 _].
  assert (Hw2 : inBounds (stringArrays h2) (When v)).
  { apply (grows_elements _ _ _ (grows_trans _ _ _ Hg1 Hg2) Hw). }
  destruct (copyStrings_spec h2 h3 _ _ Hw2 E3)
    as [Ee3 [En3 [Ef3 [Ei3 [Ex3 [Eb3 Eo3]]]]]].
  destruct (copyStrings_others _ _ _ _ E3) as [Er3 Et3].
  pose proof Ex3 as [Hg3 _].
  assert (Hf3 : inBounds (stringArrays h3) (FailedWhen v)).
  { apply (grows_elements _ _ _
             (grows_trans _ _ _ (grows_trans _ _ _ Hg1 Hg2) Hg3) Hf). }
  destruct (copyStrings_spec h3 h4 _ _ Hf3 E4)
    as [Ee4 [En4 [Ef4 [Ei4 [Ex4 [Eb4 Eo4]]]]]].
  destruct (copyStrings_others _ _ _ _ E4) as [Er4 Et4].
  pose proof Ex4 as [Hg4 _].
  (* the slices made early, seen in the memory at the end *)
  assert (Hg14 : grows (stringArrays h1) (stringArrays h4))
    by (eapply grows_trans; [| exact Hg4];
        eapply grows_trans; [exact Hg2 | exact Hg3]).
  destruct (grows_elements _ _ _ Hg14 Ei1) as [Eh Ih].
  destruct (grows_elements _ _ _ Hg4 Ei3) as [Ew Iw].
  assert (Hl12 : List.length (stringArrays h2) = List.length (stringArrays h1))
    by now rewrite Es2.
  assert (Hl01 : List.length (stringArrays h) <= List.length (stringArrays h1))
    by apply Hg1.
  assert (Hl23 : List.length (stringArrays h2) <= List.length (stringArrays h3))
    by apply Hg3.
  split.
  { eapply extends_trans; [exact Ex1 |].
    eapply extends_trans; [exact Ex2 |].
    eapply extends_trans; [exact Ex3 | exact Ex4]. }
  split.
  { repeat split; try assumption.
    destruct ignoreError as [q |]; [| exact I].
    rewrite Eb4, Eb3. exact Ei2. }
  split.
  { unfold TaskSpec_strings. cbn [Hosts When FailedWhen].
    rewrite Eh, Ee1, Ew, Ee3, Ee4.
    destruct (grows_elements _ _ _ (grows_trans _ _ _ Hg1 Hg2) Hw) as [-> _].
    destruct (grows_elements _ _ _
                (grows_trans _ _ _ (grows_trans _ _ _ Hg1 Hg2) Hg3) Hf)
      as [-> _].
    reflexivity. }
  split.
  { rewrite (extends_deref h2 h4 ignoreError
               (extends_trans _ _ _ Ex3 Ex4) Ei2), Ee2.
    now apply extends_deref. }
  split; [tauto |].
  split.
  { split; [exact (grows_fresh _ _ _ _ Hg14 Ei1 Ef1) |].
    split.
    { apply (grows_fresh _ _ _ _ Hg4 Ei3).
      destruct when as [o |]; [| exact I].
      destruct Ef3 as [Hn Hrest]. split; [lia | exact Hrest]. }
    split.
    { destruct failedWhen as [o |]; [| exact I].
      destruct Ef4 as [Hn Hrest]. split; [lia | exact Hrest]. }
    intros q Hq. specialize (Ef2 q Hq). rewrite Eb1 in Ef2. exact Ef2. }
  split.
  { repeat split; intros a b Ha Hb.
    - destruct (Eo1 a Ha) as [Ea El]. destruct (Eo3 b Hb) as [Eb _]. lia.
    - destruct (Eo1 a Ha) as [Ea El]. destruct (Eo4 b Hb) as [Eb _]. lia.
    - destruct (Eo3 a Ha) as [Ea El]. destruct (Eo4 b Hb) as [Eb _]. lia. }
  split; congruence.
Qed.

Lemma TaskSpec_DeepCopyInto_plain h h' (v out : TaskSpec) :
  TaskSpec_DeepCopyInto D h v = (h', out) ->
  TaskSpec_plain out = TaskSpec_plain v /\
  Loop out = RawExtension_DeepCopyInto D (Loop v) /\
  Module out = Module_DeepCopyInto D (Module v).
Proof.
  unfold TaskSpec_DeepCopyInto.
  destruct (copyStrings h (Hosts v)) as [h1 hosts].
  destruct (copyBool h1 (IgnoreError v)) as [h2 ignoreError].
  destruct (copyStrings h2 (When v)) as [h3 when].
  destruct (copyStrings h3 (FailedWhen v)) as [h4 failedWhen].
  intros E. injection E as _ <-. repeat split.
Qed.

(** X16.  The copy of a [TaskSpec] holds the same values: its three slices
    show the same strings and its pointer points to the same bool, each of
    them nil exactly when the original's is, and the other fields are the
    original's, the embedded ones copied by their own deep copies. *)
Theorem TaskSpec_DeepCopyInto_same_values h h' (v out : TaskSpec) :
  TaskSpec_inBounds h v ->
  TaskSpec_DeepCopyInto D h v = (h', out) ->
  TaskSpec_strings h' out = TaskSpec_strings h v /\
  deref h' (IgnoreError out) = deref h (IgnoreError v) /\
  ((Hosts out = None <-> Hosts v = None) /\
   (When out = None <-> When v = None) /\
   (FailedWhen out = None <-> FailedWhen v = None) /\
   (IgnoreError out = None <-> IgnoreError v = None)) /\
  TaskSpec_plain out = TaskSpec_plain v /\
  Loop out = RawExtension_DeepCopyInto D (Loop v) /\
  Module out = Module_DeepCopyInto D (Module v).
Proof.
  intros Hin Hcopy.
  destruct (TaskSpec_DeepCopyInto_facts h h' v out Hin Hcopy)
    as [_ [_ [Hs [Hd [Hnil _]]]]].
  repeat (split; [assumption |]).
  now apply (TaskSpec_DeepCopyInto_plain h h').
Qed.

(** X17.  The copy of a [TaskSpec] has memory of its own: each of its slices
    is all of an array that was not there before, no two of them share an
    array, and its pointer is to a cell that was not there before. *)
Theorem TaskSpec_DeepCopyInto_own_memory h h' (v out : TaskSpec) :
  TaskSpec_inBounds h v ->
  TaskSpec_DeepCopyInto D h v = (h', out) ->
  (fresh (List.length (stringArrays h)) (stringArrays h') (Hosts out) /\
   fresh (List.length (stringArrays h)) (stringArrays h') (When out) /\
   fresh (List.length (stringArrays h)) (stringArrays h') (FailedWhen out) /\
   (forall q, IgnoreError out = Some q -> List.length (boolCells h) <= q)) /\
  ((forall a b, Hosts out = Some a -> When out = Some b ->
                array a <> array b) /\
   (forall a b, Hosts out = Some a -> FailedWhen out = Some b ->
                array a <> array b) /\
   (forall a b, When out = Some a -> FailedWhen out = Some b ->
                array a <> array b)).
Proof.
  intros Hin Hcopy.
  destruct (TaskSpec_DeepCopyInto_facts h h' v out Hin Hcopy)
    as [_ [_ [_ [_ [_ [Hfresh [Hapart _]]]]]]].
  split; assumption.
Qed.

(** X18.  The copy of a [TaskSpec] leaves all that was in memory as it was:
    every [TaskSpec] that lay within the memory, the original among them,
    shows the same strings and the same bool afterwards. *)
Theorem TaskSpec_DeepCopyInto_keeps_memory h h' (v out w : TaskSpec) :
  TaskSpec_inBounds h v ->
  TaskSpec_DeepCopyInto D h v = (h', out) ->
  TaskSpec_inBounds h w ->
  TaskSpec_strings h' w = TaskSpec_strings h w /\
  deref h' (IgnoreError w) = deref h (IgnoreError w).
Proof.
  intros Hin Hcopy Hw.
  destruct (TaskSpec_DeepCopyInto_facts h h' v out Hin Hcopy) as [Hext _].
  destruct (extends_TaskSpec h h' w Hext Hw) as [Hs [Hd _]]. now split.
Qed.

(** X19.  Original and copy of a [TaskSpec] are independent: a write through a
    slice of the copy leaves the strings of the original as they were, and a
    write through a slice of the original leaves the strings of the copy as
    they are. *)
Theorem TaskSpec_DeepCopyInto_independent h h' (v out : TaskSpec)
  (s : slice) (i : nat) (x : string) :
  TaskSpec_inBounds h v ->
  TaskSpec_DeepCopyInto D h v = (h', out) ->
  let written := with_stringArrays h' (set (stringArrays h') s i x) in
  (In (Some s) [Hosts out; When out; FailedWhen out] ->
   TaskSpec_strings written v = TaskSpec_strings h v) /\
  (In (Some s) [Hosts v; When v; FailedWhen v] ->
   TaskSpec_strings written out = TaskSpec_strings h' out).
Proof.
  intros Hin Hcopy written.
  destruct (TaskSpec_DeepCopyInto_facts h h' v out Hin Hcopy)
    as [Hext [Hout [_ [_ [_ [[Fh [Fw [Ff _]]] _]]]]]].
  destruct (extends_TaskSpec h h' v Hext Hin) as [Hsame [_ Hin']].
  destruct Hin as [Ih [Iw [If_ _]]].
  destruct Hin' as [Ih' [Iw' [If' _]]].
  destruct Hout as [Oh [Ow [Of _]]].
  unfold written, TaskSpec_strings in *.
  cbn [stringArrays with_stringArrays].
  split; intros Hs.
  - (* [s] is fresh: the slices of [v] lie below it *)
    assert (Hs' : array s < List.length (stringArrays h') /\
                  List.length (stringArrays h) <= array s).
    { cbn [In] in Hs. destruct Hs as [E | [E | [E | []]]].
      - rewrite E in Oh, Fh. cbn [inBounds fresh] in Oh, Fh. lia.
      - rewrite E in Ow, Fw. cbn [inBounds fresh] in Ow, Fw. lia.
      - rewrite E in Of, Ff. cbn [inBounds fresh] in Of, Ff. lia. }
    destruct Hs' as [Hlt Hge].
    rewrite !set_elsewhere; try exact Hlt; try exact Hsame.
    + intros o Ho. rewrite Ho in If_. cbn [inBounds] in If_. lia.
    + intros o Ho. rewrite Ho in Iw. cbn [inBounds] in Iw. lia.
    + intros o Ho. rewrite Ho in Ih. cbn [inBounds] in Ih. lia.
  - assert (Hs' : array s < List.length (stringArrays h)).
    { cbn [In] in Hs. destruct Hs as [E | [E | [E | []]]].
      - rewrite E in Ih. cbn [inBounds] in Ih. lia.
      - rewrite E in Iw. cbn [inBounds] in Iw. lia.
      - rewrite E in If_. cbn [inBounds] in If_. lia. }
    assert (Hlt : array s < List.length (stringArrays h'))
      by (destruct Hext as [[Hl _] _]; lia).
    rewrite !set_elsewhere; try exact Hlt; try reflexivity.
    + intros o Ho. rewrite Ho in Ff. cbn [fresh] in Ff. lia.
    + intros o Ho. rewrite Ho in Fw. cbn [fresh] in Fw. lia.
    + intros o Ho. rewrite Ho in Fh. cbn [fresh] in Fh. lia.
Qed.

(** What [TaskStatus.DeepCopyInto] leaves. *)
Lemma TaskStatus_DeepCopyInto_facts h h' (v out : TaskStatus) :
  TaskStatus_inBounds h v ->
  TaskStatus_DeepCopyInto D h v = (h', out) ->
  elements (hostResultArrays h') (HostResults out)
    = elements (hostResultArrays h) (HostResults v) /\
  (HostResults out = None <-> HostResults v = None) /\
  fresh (List.length (hostResultArrays h)) (hostResultArrays h')
    (HostResults out) /\
  TaskStatus_inBounds h' out /\
  TaskStatus_plain out = TaskStatus_plain v /\
  extends h h'.
Proof.
  intros Hin Hcopy. unfold TaskStatus_DeepCopyInto in Hcopy.
  destruct (copySlice (zero_TaskHostResult D) (hostResultArrays h)
              (HostResults v)) as [st results] eqn:Hslice.
  injection Hcopy as <- <-.
  destruct (copySlice_spec _ _ _ _ _ Hin Hslice)
    as [He [Hnil [Hf [Hi [Hg _]]]]].
  cbn [hostResultArrays with_hostResultArrays HostResults TaskStatus_plain].
  repeat (split; [assumption || reflexivity |]).
  split; [apply grows_refl |].
  split; [exists []; cbn; now rewrite app_nil_r |].
  split; [exact Hg | apply grows_refl].
Qed.

Lemma TaskStatus_DeepCopyInto_others h h' (v out : TaskStatus) :
  TaskStatus_DeepCopyInto D h v = (h', out) ->
  stringArrays h' = stringArrays h /\ boolCells h' = boolCells h /\
  taskArrays h' = taskArrays h.
Proof.
  unfold TaskStatus_DeepCopyInto.
  destruct (copySlice _ (hostResultArrays h) (HostResults v)).
  intros E. injection E as <- _. repeat split.
Qed.

Lemma extends_Task h h' (t : Task) :
  extends h h' -> Task_inBounds h t ->
  Task_values h' t = Task_values h t /\ Task_inBounds h' t.
Proof.
  intros Hext [Hspec Hstatus]. pose proof Hext as [_ [_ [Hr _]]].
  destruct (extends_TaskSpec h h' _ Hext Hspec) as [Hs [Hd Hi]].
  destruct (grows_elements _ _ _ Hr Hstatus) as [He Hb].
  unfold Task_values. rewrite Hs, Hd, He.
  split; [reflexivity | split; assumption].
Qed.

(** What [Task.DeepCopyInto] leaves. *)
Lemma Task_DeepCopyInto_facts h h' (v out : Task) :
  Task_inBounds h v ->
  Task_DeepCopyInto D h v = (h', out) ->
  Task_values h' out = Task_values h v /\
  Task_ObjectMeta out = ObjectMeta_DeepCopyInto D (Task_ObjectMeta v) /\
  (fresh (List.length (stringArrays h)) (stringArrays h') (Hosts (Spec out)) /\
   fresh (List.length (stringArrays h)) (stringArrays h') (When (Spec out)) /\
   fresh (List.length (stringArrays h)) (stringArrays h')
     (FailedWhen (Spec out)) /\
   (forall q, IgnoreError (Spec out) = Some q ->
              List.length (boolCells h) <= q) /\
   fresh (List.length (hostResultArrays h)) (hostResultArrays h')
     (HostResults (Status out))) /\
  Task_inBounds h' out /\
  extends h h' /\
  taskArrays h' = taskArrays h.
Proof.
  intros [Hspec Hstatus] Hcopy. unfold Task_DeepCopyInto in Hcopy.
  destruct (TaskSpec_DeepCopyInto D h (Spec v)) as [h1 spec] eqn:E1.
  destruct (TaskStatus_DeepCopyInto D h1 (Status v)) as [h2 status] eqn:E2.
  injection Hcopy as <- <-.
  destruct (TaskSpec_DeepCopyInto_facts h h1 _ _ Hspec E1)
    as [X1 [I1 [S1 [D1 [_ [[Fh [Fw [Ff Fp]]] [_ [R1 T1]]]]]]]].
  destruct (TaskSpec_DeepCopyInto_plain h h1 _ _ E1) as [P1 _].
  assert (Hstatus1 : TaskStatus_inBounds h1 (Status v))
    by (unfold TaskStatus_inBounds; now rewrite R1).
  destruct (TaskStatus_DeepCopyInto_facts h1 h2 _ _ Hstatus1 E2)
    as [E [_ [Fr [I2 [P2 X2]]]]].
  destruct (TaskStatus_DeepCopyInto_others _ _ _ _ E2) as [Os [Ob Ot]].
  destruct (extends_TaskSpec h1 h2 spec X2 I1) as [S2 [D2 I1']].
  cbn [Spec Status Task_ObjectMeta Task_TypeMeta].
  split.
  { unfold Task_values. cbn [Spec Status Task_TypeMeta].
    rewrite S2, S1, D2, D1, P1, P2, E, R1. reflexivity. }
  split; [reflexivity |].
  split.
  { rewrite Os. repeat (split; [assumption |]). now rewrite <- R1. }
  split; [split; assumption |].
  split; [eapply extends_trans; eassumption |].
  congruence.
Qed.

Lemma nth_update {A : Type} (arr : list A) (k j : nat) (x d : A) :
  k < List.length arr ->
  nth j (firstn k arr ++ x :: skipn (S k) arr)%list d
  = if Nat.eqb j k then x else nth j arr d.
Proof.
  intros Hk.
  assert (Hf : List.length (firstn k arr) = k) by (rewrite length_firstn; lia).
  destruct (Nat.eqb_spec j k) as [-> | Hne].
  - rewrite app_nth2 by lia. rewrite Hf, Nat.sub_diag. reflexivity.
  - destruct (Nat.lt_ge_cases j k) as [Hlt | Hge].
    + rewrite app_nth1 by lia. rewrite nth_firstn.
      destruct (Nat.ltb_spec j k); [reflexivity | lia].
    + rewrite app_nth2 by lia. rewrite Hf.
      replace (j - k) with (S (j - S k)) by lia. cbn [nth].
      rewrite nth_skipn. f_equal. lia.
Qed.

Lemma length_update {A : Type} (arr : list A) (k : nat) (x : A) :
  k < List.length arr ->
  List.length (firstn k arr ++ x :: skipn (S k) arr)%list = List.length arr.
Proof.
  intros Hk. rewrite length_app, length_firstn. cbn [List.length].
  rewrite length_skipn. lia.
Qed.

(** The loop over the items: once it has run from [k] on, every item of the
    new array says what the item of the original at its index says. *)
Lemma copyItems_facts h (s out : slice) :
  array s < List.length (taskArrays h) ->
  offset s + len s <= List.length (backing (taskArrays h) (array s)) ->
  offset out = 0 ->
  List.length (taskArrays h) <= array out ->
  (forall j, j < len s ->
     Task_inBounds h
       (nth (offset s + j) (backing (taskArrays h) (array s)) (zero_Task D))) ->
  forall m k hk,
    k + m = len s ->
    extends h hk ->
    array out < List.length (taskArrays hk) ->
    List.length (backing (taskArrays hk) (array out)) = len s ->
    (forall j, j < k ->
       Task_values hk (nth j (backing (taskArrays hk) (array out)) (zero_Task D))
       = Task_values h
           (nth (offset s + j) (backing (taskArrays h) (array s)) (zero_Task D))
       /\
       Task_inBounds hk
         (nth j (backing (taskArrays hk) (array out)) (zero_Task D))) ->
    extends h (copyItems D hk s out k m) /\
    array out < List.length (taskArrays (copyItems D hk s out k m)) /\
    List.length (taskArrays (copyItems D hk s out k m))
      = List.length (taskArrays hk) /\
    List.length (backing (taskArrays (copyItems D hk s out k m)) (array out))
      = len s /\
    (forall j, j < len s ->
       Task_values (copyItems D hk s out k m)
         (nth j (backing (taskArrays (copyItems D hk s out k m)) (array out))
            (zero_Task D))
       = Task_values h
           (nth (offset s + j) (backing (taskArrays h) (array s)) (zero_Task D))
       /\
       Task_inBounds (copyItems D hk s out k m)
         (nth j (backing (taskArrays (copyItems D hk s out k m)) (array out))
            (zero_Task D))).
Proof.
  intros Ha Hb Hoff Hnew Hitems.
  induction m as [| m IH]; intros k hk Hkm Hext Hout Hlen Hdone.
  - cbn [copyItems]. repeat (split; [assumption || reflexivity |]).
    intros j Hj. apply Hdone. lia.
  - cbn [copyItems].
    pose proof Hext as [_ [_ [_ [Hgl Hgb]]]].
    rewrite (Hgb _ Ha).
    set (element := nth (offset s + k) (backing (taskArrays h) (array s))
                      (zero_Task D)).
    assert (Hel : Task_inBounds h element) by (apply Hitems; lia).
    destruct (extends_Task h hk element Hext Hel) as [Hval Hin].
    destruct (Task_DeepCopyInto D hk element) as [h1 copied] eqn:Hcopy.
    destruct (Task_DeepCopyInto_facts hk h1 element copied Hin Hcopy)
      as [Hv [_ [_ [Hi [Hx Ht]]]]].
    set (h2 := with_taskArrays h1 (set (taskArrays h1) out k copied)).
    assert (Hout1 : array out < List.length (taskArrays h1)) by now rewrite Ht.
    assert (Harr : backing (taskArrays h2) (array out)
                   = (firstn k (backing (taskArrays hk) (array out))
                      ++ copied :: skipn (S k)
                           (backing (taskArrays hk) (array out)))%list).
    { unfold h2, set. cbn [taskArrays with_taskArrays].
      rewrite setArray_same by exact Hout1. now rewrite Hoff, Ht. }
    assert (Hsize : List.length (taskArrays h2) = List.length (taskArrays hk)).
    { unfold h2, set. cbn [taskArrays with_taskArrays].
      rewrite setArray_length by exact Hout1. now rewrite Ht. }
    assert (Hext2 : extends h h2).
    { pose proof (extends_trans _ _ _ Hext Hx) as [Es [Eb [Er [Etl Etb]]]].
      split; [exact Es |]. split; [exact Eb |]. split; [exact Er |].
      split; [unfold h2, set; cbn [taskArrays with_taskArrays];
              rewrite setArray_length by exact Hout1; exact Etl |].
      intros l Hl. unfold h2, set. cbn [taskArrays with_taskArrays].
      rewrite setArray_other by (exact Hout1 || lia). now apply Etb. }
    destruct (IH (S k) h2) as [R1 [R2 [R3 [R4 R5]]]].
    + lia.
    + exact Hext2.
    + now rewrite Hsize.
    + rewrite Harr. rewrite length_update by lia. exact Hlen.
    + intros j Hj. rewrite Harr, nth_update by lia.
      change (Task_values h2) with (Task_values h1).
      change (Task_inBounds h2) with (Task_inBounds h1).
      destruct (Nat.eqb_spec j k) as [-> | Hne].
      * split; [| exact Hi]. rewrite Hv. exact Hval.
      * destruct (Hdone j ltac:(lia)) as [Dv Di].
        destruct (extends_Task hk h1 _ Hx Di) as [Dv' Di'].
        split; [now rewrite Dv' | exact Di'].
    + repeat (split; [assumption |]).
      split; [now rewrite R3 |]. split; assumption.
Qed.

(** What [TaskList.DeepCopyInto] leaves. *)
Lemma TaskList_DeepCopyInto_facts h h' (v out : TaskList) :
  inBounds (taskArrays h) (Items v) ->
  Forall (Task_inBounds h) (elements (taskArrays h) (Items v)) ->
  TaskList_DeepCopyInto D h v = (h', out) ->
  map (Task_values h') (elements (taskArrays h') (Items out))
    = map (Task_values h) (elements (taskArrays h) (Items v)) /\
  (Items out = None <-> Items v = None) /\
  fresh (List.length (taskArrays h)) (taskArrays h') (Items out) /\
  Forall (Task_inBounds h') (elements (taskArrays h') (Items out)) /\
  TaskList_TypeMeta out = TaskList_TypeMeta v /\
  TaskList_ListMeta out = ListMeta_DeepCopyInto D (TaskList_ListMeta v) /\
  extends h h'.
Proof.
  intros Hin Hall Hcopy. unfold TaskList_DeepCopyInto in Hcopy.
  destruct (Items v) as [s |] eqn:Hitems.
  2: { injection Hcopy as <- <-. cbn [Items elements map].
       repeat split; try exact I; try constructor; try apply grows_refl.
       exists []. now rewrite app_nil_r. }
  cbn [make] in Hcopy. injection Hcopy as <- <-.
  cbn [Items TaskList_TypeMeta TaskList_ListMeta].
  destruct Hin as [Ha Hb].
  set (out := {| array := List.length (taskArrays h); offset := 0;
                 len := len s |}).
  set (h0 := with_taskArrays h
               (taskArrays h ++ [repeat (zero_Task D) (len s)])%list).
  assert (Hext0 : extends h h0).
  { split; [apply grows_refl |].
    split; [exists []; cbn; now rewrite app_nil_r |].
    split; [apply grows_refl |].
    unfold h0. cbn [taskArrays with_taskArrays]. split.
    - rewrite length_app. lia.
    - intros l Hl. now apply backing_old. }
  assert (Hnth : forall j, j < len s ->
            nth j (elements (taskArrays h) (Some s)) (zero_Task D)
            = nth (offset s + j) (backing (taskArrays h) (array s))
                (zero_Task D)).
  { intros j Hj. unfold elements, view. rewrite nth_firstn.
    destruct (Nat.ltb_spec j (len s)); [| lia]. apply nth_skipn. }
  assert (Hlen_in : List.length (elements (taskArrays h) (Some s)) = len s).
  { apply view_length. split; assumption. }
  destruct (copyItems_facts h s out Ha Hb eq_refl (le_n _)) with
    (m := len s) (k := 0) (hk := h0) as [R1 [R2 [R3 [R4 R5]]]].
  - intros j Hj. rewrite <- Hnth by exact Hj.
    apply (proj1 (Forall_nth _ _) Hall). now rewrite Hlen_in.
  - reflexivity.
  - exact Hext0.
  - unfold h0, out. cbn [taskArrays with_taskArrays array].
    rewrite length_app. simpl. lia.
  - unfold h0, out. cbn [taskArrays with_taskArrays array].
    rewrite backing_new. apply repeat_length.
  - intros j Hj. lia.
  - set (h' := copyItems D h0 s out 0 (len s)) in *.
    assert (Hview : elements (taskArrays h') (Some out)
                    = backing (taskArrays h') (array out)).
    { unfold elements, view. cbn [offset len out skipn].
      apply firstn_all2. rewrite R4. lia. }
    split.
    { apply (nth_ext _ _ (Task_values h' (zero_Task D))
               (Task_values h (zero_Task D))).
      - rewrite !length_map, Hview, R4. now rewrite Hlen_in.
      - intros j Hj. rewrite length_map, Hview, R4 in Hj.
        rewrite !map_nth, Hview, Hnth by exact Hj.
        apply (R5 j Hj). }
    split; [split; discriminate |].
    split.
    { cbn [fresh]. split; [apply le_n |]. split; [reflexivity |].
      now rewrite R4. }
    split.
    { apply Forall_nth. intros j d Hj. rewrite Hview, R4 in Hj.
      rewrite (nth_indep _ d (zero_Task D)) by (rewrite Hview, R4; exact Hj).
      rewrite Hview. apply (R5 j Hj). }
    repeat split; try exact R1; apply R1.
Qed.

(** X20.  The copy of a [TaskStatus] holds the same host results, nil exactly
    when the original's slice is, in an array of its own that was not there
    before and that the slice fills; the other fields are the original's, and
    all that was in memory is as it was. *)
Theorem TaskStatus_DeepCopyInto_spec h h' (v out : TaskStatus) :
  TaskStatus_inBounds h v ->
  TaskStatus_DeepCopyInto D h v = (h', out) ->
  elements (hostResultArrays h') (HostResults out)
    = elements (hostResultArrays h) (HostResults v) /\
  (HostResults out = None <-> HostResults v = None) /\
  fresh (List.length (hostResultArrays h)) (hostResultArrays h')
    (HostResults out) /\
  TaskStatus_plain out = TaskStatus_plain v /\
  extends h h'.
Proof.
  intros Hin Hcopy.
  destruct (TaskStatus_DeepCopyInto_facts h h' v out Hin Hcopy)
    as [He [Hnil [Hf [_ [Hp Hx]]]]].
  repeat split; try assumption; apply Hnil || apply Hx.
Qed.

(** X21.  The copy of a [Task] says what the original says, its [ObjectMeta]
    copied by that type's own deep copy; the slices and the pointer of the
    copy refer to memory that was not there before; and all that was in memory
    is as it was. *)
Theorem Task_DeepCopyInto_spec h h' (v out : Task) :
  Task_inBounds h v ->
  Task_DeepCopyInto D h v = (h', out) ->
  Task_values h' out = Task_values h v /\
  Task_ObjectMeta out = ObjectMeta_DeepCopyInto D (Task_ObjectMeta v) /\
  (fresh (List.length (stringArrays h)) (stringArrays h') (Hosts (Spec out)) /\
   fresh (List.length (stringArrays h)) (stringArrays h') (When (Spec out)) /\
   fresh (List.length (stringArrays h)) (stringArrays h')
     (FailedWhen (Spec out)) /\
   (forall q, IgnoreError (Spec out) = Some q ->
              List.length (boolCells h) <= q) /\
   fresh (List.length (hostResultArrays h)) (hostResultArrays h')
     (HostResults (Status out))) /\
  extends h h'.
Proof.
  intros Hin Hcopy.
  destruct (Task_DeepCopyInto_facts h h' v out Hin Hcopy)
    as [Hv [Hm [Hf [_ [Hx _]]]]].
  repeat (split; [assumption |]). exact Hx.
Qed.

(** X22.  The copy of a [TaskList] has as many items as the original, nil
    exactly for nil, in an array of its own that was not there before; each
    item says what the original's item at its index says; and all that was in
    memory is as it was. *)
Theorem TaskList_DeepCopyInto_spec h h' (v out : TaskList) :
  inBounds (taskArrays h) (Items v) ->
  Forall (Task_inBounds h) (elements (taskArrays h) (Items v)) ->
  TaskList_DeepCopyInto D h v = (h', out) ->
  map (Task_values h') (elements (taskArrays h') (Items out))
    = map (Task_values h) (elements (taskArrays h) (Items v)) /\
  (Items out = None <-> Items v = None) /\
  fresh (List.length (taskArrays h)) (taskArrays h') (Items out) /\
  TaskList_TypeMeta out = TaskList_TypeMeta v /\
  TaskList_ListMeta out = ListMeta_DeepCopyInto D (TaskList_ListMeta v) /\
  extends h h'.
Proof.
  intros Hin Hall Hcopy.
  destruct (TaskList_DeepCopyInto_facts h h' v out Hin Hall Hcopy)
    as [Hv [Hnil [Hf [_ [Ht [Hl Hx]]]]]].
  repeat split; try assumption; apply Hnil || apply Hx.
Qed.

(** X23.  [DeepCopyObject] gives the nil interface exactly for the nil
    receiver, and then allocates nothing; for any other receiver it gives an
    interface that holds a pointer which is not nil, to the deep copy of the
    receiver. *)
Theorem DeepCopyObject_of_nil h (t : option Task) (l : option TaskList) :
  (match t with
   | None => Task_DeepCopyObject D h t = (h, nilObject)
   | Some v =>
       Task_DeepCopyObject D h t
       = (fst (Task_DeepCopyInto D h v),
          TaskObject (Some (snd (Task_DeepCopyInto D h v))))
   end) /\
  (match l with
   | None => TaskList_DeepCopyObject D h l = (h, nilObject)
   | Some v =>
       TaskList_DeepCopyObject D h l
       = (fst (TaskList_DeepCopyInto D h v),
          TaskListObject (Some (snd (TaskList_DeepCopyInto D h v))))
   end).
Proof.
  split.
  - destruct t as [v |]; [| reflexivity].
    unfold Task_DeepCopyObject, Task_DeepCopy.
    destruct (Task_DeepCopyInto D h v). reflexivity.
  - destruct l as [v |]; [| reflexivity].
    unfold TaskList_DeepCopyObject, TaskList_DeepCopy.
    destruct (TaskList_DeepCopyInto D h v). reflexivity.
Qed.

End DeepCopyFacts.

(** * Copies of the sample task *)

Section SampleRuns.
Import v1alpha1.

Lemma sample_spec_inBounds : TaskSpec_inBounds sample.heap sample.spec.
Proof. unfold TaskSpec_inBounds. cbn. repeat split; lia. Qed.

Lemma sample_task_inBounds : Task_inBounds sample.heap sample.task.
Proof.
  split; [exact sample_spec_inBounds |].
  unfold TaskStatus_inBounds. cbn. lia.
Qed.

(** The copy shows the hosts and the two conditions of the original. *)
Lemma TaskSpec_DeepCopyInto_same_values_witness :
  TaskSpec_strings (fst (TaskSpec_DeepCopyInto sample.copies sample.heap
                           sample.spec))
    (snd (TaskSpec_DeepCopyInto sample.copies sample.heap sample.spec))
  = (["node1"; "node2"], ["os == linux"], ["os == linux"]).
Proof.
  refine (proj1 (TaskSpec_DeepCopyInto_same_values sample.copies sample.heap
                   _ sample.spec _ sample_spec_inBounds
                   (surjective_pairing _))).
Defined.

(** The hosts of the copy are all of an array that the memory, which had
    two arrays of strings, did not have. *)
Lemma TaskSpec_DeepCopyInto_own_memory_witness :
  fresh 2
    (stringArrays (fst (TaskSpec_DeepCopyInto sample.copies sample.heap
                          sample.spec)))
    (Hosts (snd (TaskSpec_DeepCopyInto sample.copies sample.heap
                   sample.spec))).
Proof.
  exact (proj1 (proj1
           (TaskSpec_DeepCopyInto_own_memory sample.copies sample.heap
              _ sample.spec _ sample_spec_inBounds (surjective_pairing _)))).
Defined.

(** The original shows the same strings once it has been copied. *)
Lemma TaskSpec_DeepCopyInto_keeps_memory_witness :
  TaskSpec_strings (fst (TaskSpec_DeepCopyInto sample.copies sample.heap
                           sample.spec)) sample.spec
  = (["node1"; "node2"], ["os == linux"], ["os == linux"]).
Proof.
  refine (proj1 (TaskSpec_DeepCopyInto_keeps_memory sample.copies sample.heap
                   _ sample.spec _ sample.spec sample_spec_inBounds
                   (surjective_pairing _) sample_spec_inBounds)).
Defined.

(** Renaming the first host of the copy leaves the hosts of the original. *)
Lemma TaskSpec_DeepCopyInto_independent_witness :
  let h' := fst (TaskSpec_DeepCopyInto sample.copies sample.heap sample.spec) in
  TaskSpec_strings
    (with_stringArrays h'
       (set (stringArrays h') {| array := 2; offset := 0; len := 2 |} 0
          "node9"))
    sample.spec
  = (["node1"; "node2"], ["os == linux"], ["os == linux"]).
Proof.
  refine (proj1 (TaskSpec_DeepCopyInto_independent sample.copies sample.heap
                   _ sample.spec _ {| array := 2; offset := 0; len := 2 |}
                   0 "node9" sample_spec_inBounds (surjective_pairing _)) _).
  left. reflexivity.
Defined.

(** The copy of the status shows the one host result of the original. *)
Lemma TaskStatus_DeepCopyInto_spec_witness :
  elements
    (hostResultArrays (fst (TaskStatus_DeepCopyInto sample.copies sample.heap
                              sample.status)))
    (HostResults (snd (TaskStatus_DeepCopyInto sample.copies sample.heap
                         sample.status)))
  = ["node1: ok"].
Proof.
  refine (proj1 (TaskStatus_DeepCopyInto_spec sample.copies sample.heap
                   _ sample.status _ _ (surjective_pairing _))).
  unfold TaskStatus_inBounds. cbn. lia.
Defined.

(** The copy of the task says what the task says. *)
Lemma Task_DeepCopyInto_spec_witness :
  Task_values (fst (Task_DeepCopyInto sample.copies sample.heap sample.task))
    (snd (Task_DeepCopyInto sample.copies sample.heap sample.task))
  = Task_values sample.heap sample.task.
Proof.
  refine (proj1 (Task_DeepCopyInto_spec sample.copies sample.heap
                   _ sample.task _ sample_task_inBounds
                   (surjective_pairing _))).
Defined.

(** The copy of the list has two items that say what the task says. *)
Lemma TaskList_DeepCopyInto_spec_witness :
  map (Task_values
         (fst (TaskList_DeepCopyInto sample.copies sample.heap sample.list)))
    (elements
       (taskArrays
          (fst (TaskList_DeepCopyInto sample.copies sample.heap sample.list)))
       (Items
          (snd (TaskList_DeepCopyInto sample.copies sample.heap sample.list))))
  = [Task_values sample.heap sample.task;
     Task_values sample.heap sample.task].
Proof.
  refine (proj1 (TaskList_DeepCopyInto_spec sample.copies sample.heap
                   _ sample.list _ _ _ (surjective_pairing _))).
  - cbn. lia.
  - cbn. repeat constructor; cbn; lia.
Defined.

End SampleRuns.
